(** * Animated graph simulation: the canvas force graph of [Graph]

    A shallow embedding of the component's numeric core: the colour
    utility [hexToRgb], node generation, the tick handler [ticked], the
    pointer handlers and the renderer's edge discovery and proximity
    weighting.

    Numbers.  A JavaScript number is modelled as a real number: the
    statements below are about the arithmetic the program writes down,
    with rounding, infinities and not-a-number left out.  The inputs at
    which a statement is shown to fail are small integers with integer or
    dyadic results, on which binary64 arithmetic and real arithmetic
    agree.  [parseInt], which does produce not-a-number on ordinary
    inputs, has its own result type.

    Nodes.  Every node the program creates (in [generateNodes] and for
    [mouseNode]) carries numeric [x], [y], [vx], [vy] and [radius]; the
    optional markers these fields have in [SimulationNodeDatum] are not
    modelled, so [v ?? d] on such a field reads [v].  The pin fields [fx]
    and [fy] are [null] or a number and are modelled as options.

    The position update of the force simulation itself (the library's own
    step, which runs before the ["tick"] listener) is not part of this
    repository; [ticked] is the listener.  Where a statement is about a
    whole tick of the program, the library's step is the one of module
    [Driver], written from the specification. *)

From Stdlib Require Import Reals Lra ZArith Lia List String Ascii Bool.
Import ListNotations.

Local Open Scope R_scope.

(** ** Configuration constants *)

Definition NODE_RADIUS : R := 4.
Definition LINK_DISTANCE : R := 100.
Definition INITIAL_WIDTH : R := 900.
Definition INITIAL_HEIGHT : R := 600.
Definition MOUSE_EFFECT_RADIUS_NODES : R := 700.
Definition MOUSE_EFFECT_RADIUS_EDGES : R := 375.

Inductive Falloff : Type := linear | quadratic.

Definition MOUSE_FALLOFF : Falloff := linear.

(** Smoothing for touch dragging; the source documents it as
    "0 = immediate, 1 = no movement". *)
Definition DRAG_LERP : R := 0.

Definition SPEED_FACTOR : R := 44 / 100.
Definition RADIUS_MIN_FACTOR : R := 10 / 100.
Definition RADIUS_MAX_FACTOR : R := 2 / 10.

Definition COLOR_WEIGHTS : list (string * R) :=
  [ ("#3cd962"%string, 75 / 100);
    ("#FF00FF"%string, 18 / 100);
    ("#e9fbfd"%string, 7 / 100) ].

(** ** Nodes *)

Module Node.

Record t : Type := mk {
  id : Z;
  x : R;
  y : R;
  vx : R;
  vy : R;
  radius : R;
  color : string;
  fx : option R;
  fy : option R
}.

Definition set_pos (n : t) (x' y' : R) : t :=
  mk (id n) x' y' (vx n) (vy n) (radius n) (color n) (fx n) (fy n).

Definition set_x_vx (n : t) (x' vx' : R) : t :=
  mk (id n) x' (y n) vx' (vy n) (radius n) (color n) (fx n) (fy n).

Definition set_y_vy (n : t) (y' vy' : R) : t :=
  mk (id n) (x n) y' (vx n) vy' (radius n) (color n) (fx n) (fy n).

Definition set_pins (n : t) (fx' fy' : option R) : t :=
  mk (id n) (x n) (y n) (vx n) (vy n) (radius n) (color n) fx' fy'.

End Node.

(** The sentinel identity of the pointer node. *)
Definition MOUSE_ID : Z := (-1)%Z.

(** ** The tick handler *)

Module Integrator.

(** "clamp and reflect X": the first [if] / [else if] of the loop body. *)
Definition reflectX (width : R) (n : Node.t) : Node.t :=
  if Rle_dec (Node.x n) (Node.radius n) then
    Node.set_x_vx n (Node.radius n) (Rabs (Node.vx n))
  else if Rge_dec (Node.x n) (width - Node.radius n) then
    Node.set_x_vx n (width - Node.radius n) (- Rabs (Node.vx n))
  else n.

(** "clamp and reflect Y": the second one. *)
Definition reflectY (height : R) (n : Node.t) : Node.t :=
  if Rle_dec (Node.y n) (Node.radius n) then
    Node.set_y_vy n (Node.radius n) (Rabs (Node.vy n))
  else if Rge_dec (Node.y n) (height - Node.radius n) then
    Node.set_y_vy n (height - Node.radius n) (- Rabs (Node.vy n))
  else n.

(** The body of the loop of [ticked] for one node [n]: the pinned
    pointer node takes the first branch and leaves the iteration with
    [continue]; every other node goes through the two reflections. *)
Definition tick_node (width height : R) (n : Node.t) : Node.t :=
  match Z.eqb (Node.id n) MOUSE_ID, Node.fx n, Node.fy n with
  | true, Some px, Some py =>
      Node.mk (Node.id n) px py 0 0 (Node.radius n) (Node.color n)
              (Node.fx n) (Node.fy n)
  | _, _, _ => reflectY height (reflectX width n)
  end.

(** [ticked], up to the call of the renderer: the loop visits every node
    of the array once, in order, and updates it in place. *)
Definition ticked (width height : R) (nodes : list Node.t) : list Node.t :=
  map (tick_node width height) nodes.

(** The guard of the first branch of the loop body. *)
Definition pinned_pointer (n : Node.t) : bool :=
  match Z.eqb (Node.id n) MOUSE_ID, Node.fx n, Node.fy n with
  | true, Some _, Some _ => true
  | _, _, _ => false
  end.

(** A wall is hit on the x axis (resp. y axis) when one of the two
    tests of that axis succeeds. *)
Definition bounces_x (width : R) (n : Node.t) : Prop :=
  Node.x n <= Node.radius n \/ Node.x n >= width - Node.radius n.

Definition bounces_y (height : R) (n : Node.t) : Prop :=
  Node.y n <= Node.radius n \/ Node.y n >= height - Node.radius n.

End Integrator.

(** ** The colour utility *)

Module Color.

Local Open Scope string_scope.
Local Open Scope Z_scope.

(** The result of [parseInt]: [None] is not-a-number, [Some z] the
    integer [z] (a negative zero is read as [0]). *)
Definition JsInt : Type := option Z.

Record Rgb : Type := mkRgb { r : JsInt; g : JsInt; b : JsInt }.

(** A string is a sequence of code units below 256.  The white space
    that [parseInt] skips is, in that range, TAB, LF, VT, FF, CR, SP and
    NBSP. *)
Definition is_white_space (c : ascii) : bool :=
  let k := nat_of_ascii c in
  (Nat.leb 9 k && Nat.leb k 13) || Nat.eqb k 32 || Nat.eqb k 160.

Definition hex_digit (c : ascii) : option Z :=
  let k := Z.of_nat (nat_of_ascii c) in
  if (48 <=? k) && (k <=? 57) then Some (k - 48)
  else if (97 <=? k) && (k <=? 102) then Some (k - 87)
  else if (65 <=? k) && (k <=? 70) then Some (k - 55)
  else None.

Fixpoint skip_white_space (s : string) : string :=
  match s with
  | String c s' => if is_white_space c then skip_white_space s' else s
  | EmptyString => s
  end.

(** The digits of the longest prefix of [s] made of hexadecimal digits,
    most significant first. *)
Fixpoint hex_prefix (s : string) : list Z :=
  match s with
  | String c s' =>
      match hex_digit c with
      | Some d => d :: hex_prefix s'
      | None => []
      end
  | EmptyString => []
  end.

Definition hex_value (ds : list Z) : Z :=
  fold_left (fun acc d => 16 * acc + d) ds 0.

(** [parseInt(s, 16)]: leading white space, an optional sign, an optional
    [0x] or [0X], then the longest run of hexadecimal digits; not-a-number
    when that run is empty. *)
Definition parseInt_16 (s : string) : JsInt :=
  let s1 := skip_white_space s in
  let '(sign, s2) :=
    match s1 with
    | String "-"%char rest => (-1, rest)
    | String "+"%char rest => (1, rest)
    | _ => (1, s1)
    end in
  let s3 :=
    match s2 with
    | String "0"%char (String "x"%char rest) => rest
    | String "0"%char (String "X"%char rest) => rest
    | _ => s2
    end in
  match hex_prefix s3 with
  | [] => None
  | ds => Some (sign * hex_value ds)
  end.

(** [hex.replace] of a hash sign by nothing: the first one is removed,
    if there is one. *)
Fixpoint remove_first_hash (s : string) : string :=
  match s with
  | String c s' => if Ascii.eqb c "#"%char then s' else String c (remove_first_hash s')
  | EmptyString => EmptyString
  end.

(** [h.slice(i, j)] for [0 <= i <= j]. *)
Definition slice (h : string) (i j : nat) : string := substring i (j - i) h.

(** [h[i] + h[i]], as the string [parseInt] is given.  The program reads
    it only below the length of [h]; beyond it both operands would be
    [undefined], their sum not-a-number, printed [NaN]. *)
Definition doubled (h : string) (i : nat) : string :=
  match get i h with
  | Some c => String c (String c EmptyString)
  | None => "NaN"
  end.

Definition gray : Rgb := mkRgb (Some 200) (Some 200) (Some 200).

Definition hexToRgb (hex : string) : Rgb :=
  if String.eqb hex EmptyString then gray
  else
    let h := remove_first_hash hex in
    if Nat.eqb (String.length h) 3 then
      mkRgb (parseInt_16 (doubled h 0)) (parseInt_16 (doubled h 1))
            (parseInt_16 (doubled h 2))
    else
      mkRgb (parseInt_16 (slice h 0 2)) (parseInt_16 (slice h 2 4))
            (parseInt_16 (slice h 4 6)).

(** The inputs the utility is documented for: an optional ["#"] followed
    by three or by six hexadecimal digits. *)
Fixpoint all_hex (s : string) : bool :=
  match s with
  | String c s' =>
      match hex_digit c with Some _ => all_hex s' | None => false end
  | EmptyString => true
  end.

Definition well_formed (hex : string) : bool :=
  let h := match hex with
           | String "#"%char rest => rest
           | _ => hex
           end in
  all_hex h && (Nat.eqb (String.length h) 3 || Nat.eqb (String.length h) 6).

End Color.

(** ** Node generation *)

Module Store.

(** [Math.random] is a source of numbers consumed in order: a
    computation reads the stream [rnd] at a cursor and moves the cursor. *)
Definition Gen (A : Type) : Type := (nat -> R) -> nat -> A * nat.

Definition ret {A : Type} (a : A) : Gen A := fun _ k => (a, k).

Definition bind {A B : Type} (c : Gen A) (f : A -> Gen B) : Gen B :=
  fun rnd k => let (a, k') := c rnd k in f a rnd k'.

Definition random : Gen R := fun rnd k => (rnd k, S k).

Notation "x <- c ;; f" := (bind c (fun x => f))
  (at level 61, c at next level, right associativity).

(** The values [Math.random] can return. *)
Definition unit_interval (rnd : nat -> R) : Prop :=
  forall k : nat, 0 <= rnd k < 1.

(** The loop of [pickWeightedColor]: [None] when no band matches. *)
Fixpoint pick_band (r acc : R) (table : list (string * R)) : option string :=
  match table with
  | [] => None
  | (c, w) :: rest =>
      let acc' := acc + w in
      if Rle_dec r acc' then Some c else pick_band r acc' rest
  end.

Definition first_color (table : list (string * R)) : string :=
  match table with
  | (c, _) :: _ => c
  | [] => EmptyString
  end.

Definition pickWeightedColor : Gen string :=
  r <- random ;;
  ret (match pick_band r 0 COLOR_WEIGHTS with
       | Some c => c
       | None => first_color COLOR_WEIGHTS
       end).

(** The callback of [Array.from] in [generateNodes], for index [i]. *)
Definition generateNode (i : Z) (width height : R) : Gen Node.t :=
  u <- random ;;
  let factor := RADIUS_MIN_FACTOR + u * (RADIUS_MAX_FACTOR - RADIUS_MIN_FACTOR) in
  let radius := Rmax 1 (NODE_RADIUS * factor) in
  ux <- random ;;
  uy <- random ;;
  uvx <- random ;;
  uvy <- random ;;
  c <- pickWeightedColor ;;
  ret (Node.mk i (ux * width) (uy * height)
         ((uvx - 5 / 10) * 2 * SPEED_FACTOR)
         ((uvy - 5 / 10) * 2 * SPEED_FACTOR)
         radius c None None).

(** Indices [i], [i + 1], ..., [i + count - 1], in that order. *)
Fixpoint generateFrom (i : Z) (count : nat) (width height : R)
  : Gen (list Node.t) :=
  match count with
  | O => ret []
  | S count' =>
      n <- generateNode i width height ;;
      rest <- generateFrom (i + 1)%Z count' width height ;;
      ret (n :: rest)
  end.

Definition generateNodes (count : nat) (width height : R) : Gen (list Node.t) :=
  generateFrom 0%Z count width height.

(** [getNodeCountForWidth]; the two breakpoints come from the theme. *)
Definition getNodeCountForWidth (sm lg width : R) : nat :=
  if Rlt_dec width sm then 75%nat
  else if Rlt_dec width lg then 150%nat
  else 300%nat.

Definition mouseRadius : R := Rmax 1 (NODE_RADIUS * (15 / 100)).

Definition mouseNode (width height : R) : Node.t :=
  Node.mk MOUSE_ID (width / 2) (height / 2) 0 0 mouseRadius
          "#3cd962"%string None None.

(** The node array of one viewport epoch: the generated nodes, then the
    pointer node pushed at the end. *)
Definition initialNodes (count : nat) (width height : R) (rnd : nat -> R)
  : list Node.t :=
  fst (generateNodes count width height rnd 0%nat) ++ [mouseNode width height].

End Store.

(** ** The pointer handlers *)

Module Pointer.

Record PointerEvent : Type := mkEvent {
  clientX : R;
  clientY : R;
  isPrimary : bool;
  pointerId : Z
}.

(** The rectangle [canvas.getBoundingClientRect()] returns. *)
Record DOMRect : Type := mkRect {
  left : R;
  top : R;
  width : R;
  height : R
}.

(** What the handlers set on the simulation. *)
Record Simulation : Type := mkSim {
  alpha : R;
  alphaTarget : R;
  running : bool
}.

(** The variables the handlers close over.  [mouseNode] is the object
    that is also the last element of the node array; [nextHandle] is the
    handle the next [requestAnimationFrame] returns, [captured] the
    pointer the canvas holds a capture for. *)
Record Session : Type := mkSession {
  particles : list Node.t;
  mouseNode : Node.t;
  rafId : option nat;
  lastEvent : option PointerEvent;
  isDragging : bool;
  activePointerId : option Z;
  simulation : Simulation;
  nextHandle : nat;
  captured : option Z
}.

(** The node array, with the pointer node at its end. *)
Definition nodes (s : Session) : list Node.t := particles s ++ [mouseNode s].

Definition lerp (a b t : R) : R := a + (b - a) * t.

(** [if (rafId == null) rafId = requestAnimationFrame(processPointer)]. *)
Definition schedule (s : Session) : Session :=
  match rafId s with
  | None =>
      mkSession (particles s) (mouseNode s) (Some (nextHandle s)) (lastEvent s)
                (isDragging s) (activePointerId s) (simulation s)
                (S (nextHandle s)) (captured s)
  | Some _ => s
  end.

Definition handlePointerMoveGlobal (e : PointerEvent) (s : Session) : Session :=
  schedule
    (mkSession (particles s) (mouseNode s) (rafId s) (Some e)
               (isDragging s) (activePointerId s) (simulation s)
               (nextHandle s) (captured s)).

Definition processPointer (rect : DOMRect) (s : Session) : Session :=
  match lastEvent s with
  | None =>
      mkSession (particles s) (mouseNode s) None None
                (isDragging s) (activePointerId s) (simulation s)
                (nextHandle s) (captured s)
  | Some e =>
      let cx := Rmax 0 (Rmin (clientX e - left rect) (width rect)) in
      let cy := Rmax 0 (Rmin (clientY e - top rect) (height rect)) in
      let m := mouseNode s in
      let m' :=
        if isDragging s then
          let x' := lerp (Node.x m) cx DRAG_LERP in
          let y' := lerp (Node.y m) cy DRAG_LERP in
          Node.set_pins (Node.set_pos m x' y') (Some x') (Some y')
        else
          Node.set_pins (Node.set_pos m cx cy) (Some cx) (Some cy) in
      let sim := simulation s in
      mkSession (particles s) m' None None
                (isDragging s) (activePointerId s)
                (mkSim (1 / 10) (alphaTarget sim) (running sim))
                (nextHandle s) (captured s)
  end.

Definition onPointerDown (e : PointerEvent) (s : Session) : Session :=
  if negb (isPrimary e) then s
  else
    let sim := simulation s in
    schedule
      (mkSession (particles s) (mouseNode s) (rafId s) (Some e)
                 true (Some (pointerId e))
                 (mkSim (alpha sim) (1 / 10) true)
                 (nextHandle s) (Some (pointerId e))).

Definition endDragFromEvent (e : PointerEvent) (s : Session) : Session :=
  if negb (isPrimary e) then s
  else
    let sim := simulation s in
    mkSession (particles s) (mouseNode s) (rafId s) None
              false None
              (mkSim (alpha sim) 0 (running sim))
              (nextHandle s)
              (match captured s with
               | Some p => if Z.eqb p (pointerId e) then None else captured s
               | None => None
               end).

Definition onPointerUp : PointerEvent -> Session -> Session := endDragFromEvent.

Definition onPointerCancel : PointerEvent -> Session -> Session := endDragFromEvent.

Definition handlePointerLeaveGlobal (s : Session) : Session :=
  if isDragging s then s
  else
    mkSession (particles s) (Node.set_pins (mouseNode s) None None) (rafId s)
              (lastEvent s) (isDragging s) (activePointerId s) (simulation s)
              (nextHandle s) (captured s).

(** The tick listener on the closure state: the loop runs over the node
    array, whose last element is the pointer node. *)
Definition ticked (w h : R) (s : Session) : Session :=
  mkSession (Integrator.ticked w h (particles s))
            (Integrator.tick_node w h (mouseNode s))
            (rafId s) (lastEvent s) (isDragging s) (activePointerId s)
            (simulation s) (nextHandle s) (captured s).

(** The closure state right after the effect has run for a viewport of
    the given size: the simulation is created with [alpha(1)] and no
    target, and it runs. *)
Definition initialSession (count : nat) (w h : R) (rnd : nat -> R) : Session :=
  mkSession (fst (Store.generateNodes count w h rnd 0%nat))
            (Store.mouseNode w h) None None false None
            (mkSim 1 0 true) 0%nat None.

End Pointer.

(** ** The renderer *)

Module Renderer.

Record Edge : Type := mkEdge { a : Node.t; b : Node.t; dist : R }.

(** [Math.hypot(dx, dy)]. *)
Definition hypot (dx dy : R) : R := sqrt (dx * dx + dy * dy).

(** The inner loop of edge discovery: [a] is [nodes[i]], [rest] the nodes
    after it. *)
Fixpoint edgesFrom (a : Node.t) (rest : list Node.t) : list Edge :=
  match rest with
  | [] => []
  | b :: rest' =>
      let dx := Node.x a - Node.x b in
      let dy := Node.y a - Node.y b in
      let dist := hypot dx dy in
      if Rle_dec dist LINK_DISTANCE
      then mkEdge a b dist :: edgesFrom a rest'
      else edgesFrom a rest'
  end.

(** The outer loop: all pairs [i < j], in the order the loops push them. *)
Fixpoint computeEdges (nodes : list Node.t) : list Edge :=
  match nodes with
  | [] => []
  | a :: rest => edgesFrom a rest ++ computeEdges rest
  end.

(** The helper of the renderer.  It closes over [mouseNode] and over the
    constant [MOUSE_FALLOFF], which are arguments here. *)
Definition proximityFactorToMouseWithRadius
  (falloff : Falloff) (mouseNode n : Node.t) (radius radius2 : R) : R :=
  let dx := Node.x n - Node.x mouseNode in
  let dy := Node.y n - Node.y mouseNode in
  let d2 := dx * dx + dy * dy in
  if Rge_dec d2 radius2 then 0
  else
    let t := sqrt d2 / radius in
    match falloff with
    | linear => Rmax 0 (1 - t)
    | quadratic => Rmax 0 (1 - t * t)
    end.

Definition baseOpacity (e : Edge) : R := Rmax 0 (1 - dist e / LINK_DISTANCE).

(** What a frame paints, the alpha values as numbers (the program prints
    them with three decimals). *)
Inductive Paint : Type :=
| Stroke (alpha x1 y1 x2 y2 : R)
| Fill (rgb : Color.Rgb) (alpha cx cy drawRadius : R).

Definition drawEdge (falloff : Falloff) (mouseNode : Node.t) (e : Edge)
  : list Paint :=
  let rEdges := MOUSE_EFFECT_RADIUS_EDGES in
  let rEdges2 := rEdges * rEdges in
  let paEdge := proximityFactorToMouseWithRadius falloff mouseNode (a e) rEdges rEdges2 in
  let pbEdge := proximityFactorToMouseWithRadius falloff mouseNode (b e) rEdges rEdges2 in
  match Req_dec_T paEdge 0, Req_dec_T pbEdge 0 with
  | left _, left _ => []
  | _, _ =>
      let proximityEdge := (paEdge + pbEdge) / 2 in
      let combinedOpacity := baseOpacity e * proximityEdge in
      if Rle_dec combinedOpacity (5 / 1000) then []
      else [Stroke combinedOpacity (Node.x (a e)) (Node.y (a e))
                   (Node.x (b e)) (Node.y (b e))]
  end.

Definition drawNode (falloff : Falloff) (mouseNode n : Node.t) : list Paint :=
  let rNodes := MOUSE_EFFECT_RADIUS_NODES in
  let rNodes2 := rNodes * rNodes in
  let pNode := proximityFactorToMouseWithRadius falloff mouseNode n rNodes rNodes2 in
  if Req_dec_T pNode 0 then []
  else if Rle_dec pNode (1 / 100) then []
  else [Fill (Color.hexToRgb (Node.color n)) pNode (Node.x n) (Node.y n)
             (Node.radius n * (1 + 35 / 100 * pNode))].

(** Distance of a node to the pointer node, and its square as the helper
    computes it. *)
Definition squaredDistance (mouseNode n : Node.t) : R :=
  (Node.x n - Node.x mouseNode) * (Node.x n - Node.x mouseNode)
  + (Node.y n - Node.y mouseNode) * (Node.y n - Node.y mouseNode).

Definition distance (mouseNode n : Node.t) : R :=
  sqrt (squaredDistance mouseNode n).

(** The frame: the edges first, then the nodes. *)
Definition drawFrameWithSeparateRadii
  (nodes : list Node.t) (mouseNode : Node.t) : list Paint :=
  flat_map (drawEdge MOUSE_FALLOFF mouseNode) (computeEdges nodes)
  ++ flat_map (drawNode MOUSE_FALLOFF mouseNode) nodes.

End Renderer.

(** ** Concrete inputs *)

Module Sample.

(** A particle with identity [0] and the radius every generated node
    has, at rest unless a velocity is given. *)
Definition particle (x y vx vy : R) (fx fy : option R) : Node.t :=
  Node.mk 0%Z x y vx vy 1 "#3cd962"%string fx fy.

(** The pointer node at a position, with the given pins. *)
Definition pointer (x y vx vy : R) (fx fy : option R) : Node.t :=
  Node.mk MOUSE_ID x y vx vy 1 "#3cd962"%string fx fy.

(** The canvas fills a 900 by 600 viewport from its corner. *)
Definition canvasRect : Pointer.DOMRect := Pointer.mkRect 0 0 900 600.

Definition down : Pointer.PointerEvent := Pointer.mkEvent 100 100 true 1%Z.

Definition move : Pointer.PointerEvent := Pointer.mkEvent 150 100 true 1%Z.

(** A random source that always answers one half. *)
Definition halves : nat -> R := fun _ => 1 / 2.

End Sample.

(** ** The handlers as a state machine *)

Module Machine.

(** What the browser and the simulation can call during one viewport
    epoch: the listeners attached by the effect, the animation frame
    callback and the tick listener. *)
Inductive Event : Type :=
| PointerMove (e : Pointer.PointerEvent)
| PointerDown (e : Pointer.PointerEvent)
| PointerUp (e : Pointer.PointerEvent)
| PointerCancel (e : Pointer.PointerEvent)
| PointerLeave
| Frame (rect : Pointer.DOMRect)
| Tick.

(** One call.  The frame callback runs only when a frame was requested
    and not yet served, which is when [rafId] holds a handle; the tick
    listener uses the viewport size of the epoch. *)
Definition step (width height : R) (ev : Event) (s : Pointer.Session)
  : Pointer.Session :=
  match ev with
  | PointerMove e => Pointer.handlePointerMoveGlobal e s
  | PointerDown e => Pointer.onPointerDown e s
  | PointerUp e => Pointer.onPointerUp e s
  | PointerCancel e => Pointer.onPointerCancel e s
  | PointerLeave => Pointer.handlePointerLeaveGlobal s
  | Frame rect =>
      match Pointer.rafId s with
      | Some _ => Pointer.processPointer rect s
      | None => s
      end
  | Tick => Pointer.ticked width height s
  end.

(** A sequence of calls, the first of the list first. *)
Definition run (width height : R) (evs : list Event) (s : Pointer.Session)
  : Pointer.Session :=
  fold_left (fun st ev => step width height ev st) evs s.

(** What holds of the closure state all along an epoch. *)
Record Consistent (s : Pointer.Session) : Prop := mkConsistent {
  pointer_id : Node.id (Pointer.mouseNode s) = MOUSE_ID;
  pointer_at_rest :
    Node.vx (Pointer.mouseNode s) = 0 /\ Node.vy (Pointer.mouseNode s) = 0;
  pins_paired :
    (Node.fx (Pointer.mouseNode s) = None
     /\ Node.fy (Pointer.mouseNode s) = None)
    \/ (Node.fx (Pointer.mouseNode s) = Some (Node.x (Pointer.mouseNode s))
        /\ Node.fy (Pointer.mouseNode s) = Some (Node.y (Pointer.mouseNode s)));
  particles_unpinned :
    Forall (fun n => (0 <= Node.id n)%Z
                     /\ Node.fx n = None /\ Node.fy n = None)
           (Pointer.particles s);
  drag_has_pointer :
    Pointer.isDragging s = true <-> Pointer.activePointerId s <> None;
  event_has_frame :
    Pointer.lastEvent s <> None -> Pointer.rafId s <> None
}.

(** A drag is on and the pointer node, of radius [r0], lies at
    [(x0, y0)]. *)
Definition dragged_at (x0 y0 r0 : R) (s : Pointer.Session) : Prop :=
  Consistent s
  /\ Pointer.isDragging s = true
  /\ Node.x (Pointer.mouseNode s) = x0
  /\ Node.y (Pointer.mouseNode s) = y0
  /\ Node.radius (Pointer.mouseNode s) = r0.

(** The calls that do not end a drag: all but a pointerup or a
    pointercancel of the primary pointer. *)
Definition keeps_drag (ev : Event) : Prop :=
  match ev with
  | PointerUp e | PointerCancel e => Pointer.isPrimary e = false
  | _ => True
  end.

End Machine.

(** ** A whole tick of the program *)

Module Driver.



End Driver.

(** * Properties *)

(** ** The tick handler *)

Section TickHandler.

Variables width height : R.

Lemma reflectX_frame (n : Node.t) :
  Node.id (Integrator.reflectX width n) = Node.id n
  /\ Node.radius (Integrator.reflectX width n) = Node.radius n
  /\ Node.y (Integrator.reflectX width n) = Node.y n
  /\ Node.vy (Integrator.reflectX width n) = Node.vy n
  /\ Node.fx (Integrator.reflectX width n) = Node.fx n
  /\ Node.fy (Integrator.reflectX width n) = Node.fy n
  /\ Node.color (Integrator.reflectX width n) = Node.color n.
Proof.
  unfold Integrator.reflectX.
  destruct (Rle_dec _ _); [ | destruct (Rge_dec _ _) ]; simpl; tauto.
Qed.

Lemma reflectY_frame (n : Node.t) :
  Node.id (Integrator.reflectY height n) = Node.id n
  /\ Node.radius (Integrator.reflectY height n) = Node.radius n
  /\ Node.x (Integrator.reflectY height n) = Node.x n
  /\ Node.vx (Integrator.reflectY height n) = Node.vx n
  /\ Node.fx (Integrator.reflectY height n) = Node.fx n
  /\ Node.fy (Integrator.reflectY height n) = Node.fy n
  /\ Node.color (Integrator.reflectY height n) = Node.color n.
Proof.
  unfold Integrator.reflectY.
  destruct (Rle_dec _ _); [ | destruct (Rge_dec _ _) ]; simpl; tauto.
Qed.

(** The three outcomes of the x reflection. *)
Lemma reflectX_cases (n : Node.t) :
  let n' := Integrator.reflectX width n in
  (Node.x n <= Node.radius n
   /\ Node.x n' = Node.radius n /\ Node.vx n' = Rabs (Node.vx n))
  \/ (Node.radius n < Node.x n /\ Node.x n >= width - Node.radius n
      /\ Node.x n' = width - Node.radius n /\ Node.vx n' = - Rabs (Node.vx n))
  \/ (Node.radius n < Node.x n < width - Node.radius n
      /\ Node.x n' = Node.x n /\ Node.vx n' = Node.vx n).
Proof.
  unfold Integrator.reflectX.
  destruct (Rle_dec _ _) as [Hl | Hl]; [ left; simpl; tauto | ].
  destruct (Rge_dec _ _) as [Hr | Hr]; simpl.
  - right; left. repeat split; try reflexivity; lra.
  - right; right. repeat split; try reflexivity; lra.
Qed.

Lemma reflectY_cases (n : Node.t) :
  let n' := Integrator.reflectY height n in
  (Node.y n <= Node.radius n
   /\ Node.y n' = Node.radius n /\ Node.vy n' = Rabs (Node.vy n))
  \/ (Node.radius n < Node.y n /\ Node.y n >= height - Node.radius n
      /\ Node.y n' = height - Node.radius n /\ Node.vy n' = - Rabs (Node.vy n))
  \/ (Node.radius n < Node.y n < height - Node.radius n
      /\ Node.y n' = Node.y n /\ Node.vy n' = Node.vy n).
Proof.
  unfold Integrator.reflectY.
  destruct (Rle_dec _ _) as [Hl | Hl]; [ left; simpl; tauto | ].
  destruct (Rge_dec _ _) as [Hr | Hr]; simpl.
  - right; left. repeat split; try reflexivity; lra.
  - right; right. repeat split; try reflexivity; lra.
Qed.

(** The loop body takes its first branch exactly on the pinned pointer
    node. *)
Lemma tick_node_pinned (n : Node.t) (px py : R) :
  Node.id n = MOUSE_ID -> Node.fx n = Some px -> Node.fy n = Some py ->
  Integrator.tick_node width height n
  = Node.mk (Node.id n) px py 0 0 (Node.radius n) (Node.color n)
            (Node.fx n) (Node.fy n).
Proof.
  intros Hid Hfx Hfy. unfold Integrator.tick_node.
  rewrite Hid, Hfx, Hfy. reflexivity.
Qed.

Lemma tick_node_free (n : Node.t) :
  Integrator.pinned_pointer n = false ->
  Integrator.tick_node width height n
  = Integrator.reflectY height (Integrator.reflectX width n).
Proof.
  unfold Integrator.pinned_pointer, Integrator.tick_node.
  destruct (Z.eqb (Node.id n) MOUSE_ID), (Node.fx n), (Node.fy n);
    intros H; try reflexivity; discriminate H.
Qed.

Lemma not_pointer_not_pinned (n : Node.t) :
  Node.id n <> MOUSE_ID -> Integrator.pinned_pointer n = false.
Proof.
  intros Hid. unfold Integrator.pinned_pointer.
  destruct (Z.eqb_spec (Node.id n) MOUSE_ID) as [E | _]; [ contradiction | ].
  reflexivity.
Qed.

(** The pass keeps the array's length and order: the node at index [i]
    after the pass is the loop body applied to the node at index [i]. *)
Lemma ticked_nth (nodes : list Node.t) (i : nat) (n : Node.t) :
  nth_error nodes i = Some n ->
  nth_error (Integrator.ticked width height nodes) i
  = Some (Integrator.tick_node width height n).
Proof.
  intros H. unfold Integrator.ticked. now apply map_nth_error.
Qed.

(** What one pass does to a node that is not the pinned pointer node. *)
Lemma free_node_step (n : Node.t) :
  Integrator.pinned_pointer n = false ->
  let n' := Integrator.tick_node width height n in
  Node.radius n' = Node.radius n
  /\ ((Node.x n <= Node.radius n
       /\ Node.x n' = Node.radius n /\ Node.vx n' = Rabs (Node.vx n))
      \/ (Node.radius n < Node.x n /\ Node.x n >= width - Node.radius n
          /\ Node.x n' = width - Node.radius n
          /\ Node.vx n' = - Rabs (Node.vx n))
      \/ (Node.radius n < Node.x n < width - Node.radius n
          /\ Node.x n' = Node.x n /\ Node.vx n' = Node.vx n))
  /\ ((Node.y n <= Node.radius n
       /\ Node.y n' = Node.radius n /\ Node.vy n' = Rabs (Node.vy n))
      \/ (Node.radius n < Node.y n /\ Node.y n >= height - Node.radius n
          /\ Node.y n' = height - Node.radius n
          /\ Node.vy n' = - Rabs (Node.vy n))
      \/ (Node.radius n < Node.y n < height - Node.radius n
          /\ Node.y n' = Node.y n /\ Node.vy n' = Node.vy n)).
Proof.
  intros Hfree n'. subst n'. rewrite (tick_node_free n Hfree).
  destruct (reflectX_frame n) as (_ & Hr & Hy & Hvy & _).
  destruct (reflectY_frame (Integrator.reflectX width n))
    as (_ & Hr' & Hx' & Hvx' & _).
  pose proof (reflectX_cases n) as HX. cbv zeta in HX.
  pose proof (reflectY_cases (Integrator.reflectX width n)) as HY.
  cbv zeta in HY. rewrite Hr, Hy, Hvy in HY.
  rewrite Hr', Hx', Hvx', Hr. auto.
Qed.

End TickHandler.

(** ** Claims about the tick handler *)

(** C3 (as amended).  For every node of the array except the pinned
    pointer node, in a viewport at least as wide and as high as the
    node's diameter, after one pass of the tick handler the node lies
    within the walls: radius <= x <= width - radius and
    radius <= y <= height - radius, whatever its position and velocity
    were before. *)
Theorem ticked_in_bounds (width height : R) (nodes : list Node.t)
  (i : nat) (n : Node.t) :
  nth_error nodes i = Some n ->
  Integrator.pinned_pointer n = false ->
  2 * Node.radius n <= width ->
  2 * Node.radius n <= height ->
  exists n',
    nth_error (Integrator.ticked width height nodes) i = Some n'
    /\ Node.radius n' <= Node.x n' <= width - Node.radius n'
    /\ Node.radius n' <= Node.y n' <= height - Node.radius n'.
Proof.
  intros Hn Hfree Hw Hh.
  exists (Integrator.tick_node width height n).
  split; [ now apply ticked_nth | ].
  destruct (free_node_step width height n Hfree) as (Hr & HX & HY).
  rewrite Hr.
  destruct HX as [HX | [HX | HX]], HY as [HY | [HY | HY]]; lra.
Qed.

Lemma ticked_in_bounds_witness :
  exists n',
    nth_error (Integrator.ticked 900 600
                 [Sample.particle 0 700 (-1) 1 None None]) 0 = Some n'
    /\ Node.radius n' <= Node.x n' <= 900 - Node.radius n'
    /\ Node.radius n' <= Node.y n' <= 600 - Node.radius n'.
Proof.
  apply (ticked_in_bounds 900 600 [Sample.particle 0 700 (-1) 1 None None]
           0%nat (Sample.particle 0 700 (-1) 1 None None)).
  - reflexivity.
  - reflexivity.
  - simpl. lra.
  - simpl. lra.
Defined.

(** C3 as stated fails: in a viewport one pixel wide and high (the
    smallest the size clamp lets through) a particle of radius 1 at the
    origin is put at x = 1, beyond width - radius = 0. *)
Lemma ticked_out_of_bounds_in_narrow_viewport :
  let n := Sample.particle 0 0 0 0 None None in
  Integrator.pinned_pointer n = false
  /\ exists n',
       nth_error (Integrator.ticked 1 1 [n]) 0 = Some n'
       /\ ~ (Node.radius n' <= Node.x n' <= 1 - Node.radius n').
Proof.
  cbv zeta. split; [ reflexivity | ].
  exists (Integrator.tick_node 1 1 (Sample.particle 0 0 0 0 None None)).
  split; [ reflexivity | ].
  destruct (free_node_step 1 1 (Sample.particle 0 0 0 0 None None) eq_refl)
    as (Hr & HX & _).
  rewrite Hr. simpl in *. lra.
Qed.

(** C5.  Whenever the pointer node (identity -1) has both pin fields
    present, after one pass of the tick handler its velocity is exactly
    (0,0) and its position exactly (fx, fy), whatever its velocity and
    position were before. *)
Theorem ticked_pins_pointer (width height : R) (nodes : list Node.t)
  (i : nat) (n : Node.t) (px py : R) :
  nth_error nodes i = Some n ->
  Node.id n = MOUSE_ID ->
  Node.fx n = Some px ->
  Node.fy n = Some py ->
  exists n',
    nth_error (Integrator.ticked width height nodes) i = Some n'
    /\ Node.vx n' = 0 /\ Node.vy n' = 0
    /\ Node.x n' = px /\ Node.y n' = py.
Proof.
  intros Hn Hid Hfx Hfy.
  exists (Integrator.tick_node width height n).
  split; [ now apply ticked_nth | ].
  rewrite (tick_node_pinned width height n px py Hid Hfx Hfy).
  simpl. auto.
Qed.

Lemma ticked_pins_pointer_witness :
  exists n',
    nth_error (Integrator.ticked 900 600
                 [Sample.particle 10 10 1 1 None None;
                  Sample.pointer 450 300 3 (-2) (Some 150) (Some 100)]) 1
    = Some n'
    /\ Node.vx n' = 0 /\ Node.vy n' = 0
    /\ Node.x n' = 150 /\ Node.y n' = 100.
Proof.
  apply (ticked_pins_pointer 900 600 _ 1%nat
           (Sample.pointer 450 300 3 (-2) (Some 150) (Some 100)) 150 100);
    reflexivity.
Defined.

(** The two reflections never read the pin fields. *)
Lemma reflect_ignores_pins (width height : R) (n : Node.t)
  (px py : option R) :
  Integrator.reflectY height (Integrator.reflectX width (Node.set_pins n px py))
  = Node.set_pins (Integrator.reflectY height (Integrator.reflectX width n))
      px py.
Proof.
  unfold Integrator.reflectY, Integrator.reflectX, Node.set_pins.
  destruct n as [i x y vx vy r c qx qy]; simpl.
  destruct (Rle_dec x r); [ | destruct (Rge_dec x (width - r)) ]; simpl;
    (destruct (Rle_dec y r); [ | destruct (Rge_dec y (height - r)) ]);
    reflexivity.
Qed.






(** C6.  For every node other than the pointer node, one pass of the
    tick handler preserves the speed: vx * vx + vy * vy is the same before
    and after, each velocity component keeps its magnitude, and a
    component changes (in sign only) on no axis but one where a wall is
    hit. *)
Theorem ticked_preserves_speed (width height : R) (nodes : list Node.t)
  (i : nat) (n : Node.t) :
  nth_error nodes i = Some n ->
  Node.id n <> MOUSE_ID ->
  exists n',
    nth_error (Integrator.ticked width height nodes) i = Some n'
    /\ Node.vx n' * Node.vx n' + Node.vy n' * Node.vy n'
       = Node.vx n * Node.vx n + Node.vy n * Node.vy n
    /\ (Node.vx n' = Node.vx n \/ Node.vx n' = - Node.vx n)
    /\ (Node.vy n' = Node.vy n \/ Node.vy n' = - Node.vy n)
    /\ (~ Integrator.bounces_x width n -> Node.vx n' = Node.vx n)
    /\ (~ Integrator.bounces_y height n -> Node.vy n' = Node.vy n).
Proof.
  intros Hn Hid.
  exists (Integrator.tick_node width height n).
  split; [ now apply ticked_nth | ].
  destruct (free_node_step width height n (not_pointer_not_pinned n Hid))
    as (_ & HX & HY).
  unfold Integrator.bounces_x, Integrator.bounces_y.
  assert (HA : forall v : R,
             (Rabs v = v \/ Rabs v = - v) /\ Rabs v * Rabs v = v * v).
  { intros v. unfold Rabs. destruct (Rcase_abs v); split; auto; lra. }
  destruct (HA (Node.vx n)) as (Hax & Hsx).
  destruct (HA (Node.vy n)) as (Hay & Hsy).
  destruct HX as [(Hc & _ & Hv) | [(Hc1 & Hc2 & _ & Hv) | (Hc & _ & Hv)]],
           HY as [(Hd & _ & Hu) | [(Hd1 & Hd2 & _ & Hu) | (Hd & _ & Hu)]];
    rewrite Hv, Hu;
    (split; [ nra | ]);
    (split; [ destruct Hax; lra | ]);
    (split; [ destruct Hay; lra | ]);
    split; intros Hnb; try reflexivity; exfalso; apply Hnb; lra.
Qed.

Lemma ticked_preserves_speed_witness :
  exists n',
    nth_error (Integrator.ticked 900 600
                 [Sample.particle 0 300 (-1) 2 None None]) 0 = Some n'
    /\ Node.vx n' * Node.vx n' + Node.vy n' * Node.vy n'
       = (-1) * (-1) + 2 * 2
    /\ (Node.vx n' = -1 \/ Node.vx n' = - (-1))
    /\ (Node.vy n' = 2 \/ Node.vy n' = - 2)
    /\ (~ Integrator.bounces_x 900 (Sample.particle 0 300 (-1) 2 None None)
        -> Node.vx n' = -1)
    /\ (~ Integrator.bounces_y 600 (Sample.particle 0 300 (-1) 2 None None)
        -> Node.vy n' = 2).
Proof.
  apply (ticked_preserves_speed 900 600
           [Sample.particle 0 300 (-1) 2 None None] 0%nat
           (Sample.particle 0 300 (-1) 2 None None)).
  - reflexivity.
  - discriminate.
Defined.

(** ** The proximity weighting *)

Section Proximity.

Variable mouseNode : Node.t.
Variable radius : R.
Hypothesis radius_pos : 0 < radius.

Lemma squaredDistance_nonneg (n : Node.t) :
  0 <= Renderer.squaredDistance mouseNode n.
Proof.
  unfold Renderer.squaredDistance.
  pose proof (Rle_0_sqr (Node.x n - Node.x mouseNode)) as Hx.
  pose proof (Rle_0_sqr (Node.y n - Node.y mouseNode)) as Hy.
  unfold Rsqr in Hx, Hy. lra.
Qed.

Lemma distance_nonneg (n : Node.t) : 0 <= Renderer.distance mouseNode n.
Proof. unfold Renderer.distance. apply sqrt_pos. Qed.

Lemma distance_squared (n : Node.t) :
  Renderer.distance mouseNode n * Renderer.distance mouseNode n
  = Renderer.squaredDistance mouseNode n.
Proof.
  unfold Renderer.distance. apply sqrt_sqrt, squaredDistance_nonneg.
Qed.

(** The helper written over the two derived quantities. *)
Lemma proximity_unfold (falloff : Falloff) (n : Node.t) (radius2 : R) :
  Renderer.proximityFactorToMouseWithRadius falloff mouseNode n radius radius2
  = if Rge_dec (Renderer.squaredDistance mouseNode n) radius2 then 0
    else match falloff with
         | linear => Rmax 0 (1 - Renderer.distance mouseNode n / radius)
         | quadratic =>
             Rmax 0 (1 - Renderer.distance mouseNode n / radius
                         * (Renderer.distance mouseNode n / radius))
         end.
Proof. reflexivity. Qed.

Lemma inside_iff (n : Node.t) :
  Renderer.squaredDistance mouseNode n < radius * radius
  <-> Renderer.distance mouseNode n < radius.
Proof.
  pose proof (distance_nonneg n) as H0.
  pose proof (distance_squared n) as H2.
  split; intros H; nra.
Qed.

(** Outside the radius the factor is 0. *)
Lemma proximity_outside (falloff : Falloff) (n : Node.t) :
  Renderer.squaredDistance mouseNode n >= radius * radius ->
  Renderer.proximityFactorToMouseWithRadius falloff mouseNode n radius
    (radius * radius) = 0.
Proof.
  intros H. rewrite proximity_unfold.
  destruct (Rge_dec _ _); [ reflexivity | contradiction ].
Qed.

(** Inside the radius the two [Math.max] are not needed: the factor is
    [1 - t], resp. [1 - t * t], with [0 <= t < 1]. *)
Lemma proximity_inside (falloff : Falloff) (n : Node.t) :
  Renderer.distance mouseNode n < radius ->
  let t := Renderer.distance mouseNode n / radius in
  0 <= t < 1
  /\ Renderer.proximityFactorToMouseWithRadius falloff mouseNode n radius
       (radius * radius)
     = match falloff with
       | linear => 1 - t
       | quadratic => 1 - t * t
       end.
Proof.
  intros H t.
  assert (Ht : 0 <= t < 1).
  { pose proof (distance_nonneg n) as H0. subst t. split.
    - apply Rmult_le_pos; [ exact H0 | ].
      apply Rlt_le, Rinv_0_lt_compat, radius_pos.
    - apply (Rmult_lt_reg_r radius); [ exact radius_pos | ].
      unfold Rdiv. rewrite Rmult_assoc, Rinv_l by lra. lra. }
  split; [ exact Ht | ].
  rewrite proximity_unfold.
  destruct (Rge_dec _ _) as [Hout | _].
  - apply inside_iff in H. lra.
  - fold t. destruct falloff; apply Rmax_right; nra.
Qed.

Lemma proximity_nonneg (falloff : Falloff) (n : Node.t) :
  0 <= Renderer.proximityFactorToMouseWithRadius falloff mouseNode n radius
         (radius * radius).
Proof.
  rewrite proximity_unfold.
  destruct (Rge_dec _ _); [ lra | ].
  destruct falloff; apply Rmax_l.
Qed.

End Proximity.

(** C7.  For every node, either falloff and every positive effect
    radius, the proximity factor is 0 when the squared distance to the
    pointer node is at least the squared radius, is exactly 1 at distance
    0, and does not increase with the distance. *)
Theorem proximity_profile (falloff : Falloff) (mouseNode : Node.t)
  (radius : R) :
  0 < radius ->
  (forall n : Node.t,
      Renderer.squaredDistance mouseNode n >= radius * radius ->
      Renderer.proximityFactorToMouseWithRadius falloff mouseNode n radius
        (radius * radius) = 0)
  /\ (forall n : Node.t,
         Renderer.distance mouseNode n = 0 ->
         Renderer.proximityFactorToMouseWithRadius falloff mouseNode n radius
           (radius * radius) = 1)
  /\ (forall n1 n2 : Node.t,
         Renderer.distance mouseNode n1 <= Renderer.distance mouseNode n2 ->
         Renderer.proximityFactorToMouseWithRadius falloff mouseNode n2 radius
           (radius * radius)
         <= Renderer.proximityFactorToMouseWithRadius falloff mouseNode n1
              radius (radius * radius)).
Proof.
  intros Hr. split; [ | split ].
  - intros n. apply proximity_outside.
  - intros n H0.
    destruct (proximity_inside mouseNode radius Hr falloff n) as (_ & ->);
      [ lra | ].
    rewrite H0. unfold Rdiv. destruct falloff; ring.
  - intros n1 n2 Hle.
    destruct (Rlt_le_dec (Renderer.distance mouseNode n2) radius) as [Hin | Hout].
    + destruct (proximity_inside mouseNode radius Hr falloff n2 Hin)
        as (Ht2 & ->).
      destruct (proximity_inside mouseNode radius Hr falloff n1)
        as (Ht1 & ->); [ lra | ].
      assert (Ht : Renderer.distance mouseNode n1 / radius
                   <= Renderer.distance mouseNode n2 / radius).
      { unfold Rdiv. apply Rmult_le_compat_r; [ | exact Hle ].
        apply Rlt_le, Rinv_0_lt_compat, Hr. }
      destruct falloff; nra.
    + rewrite (proximity_outside mouseNode radius falloff n2).
      * apply proximity_nonneg.
      * pose proof (distance_squared mouseNode n2). nra.
Qed.

Lemma proximity_profile_witness :
  (forall n : Node.t,
      Renderer.squaredDistance (Sample.pointer 0 0 0 0 None None) n >= 2 * 2 ->
      Renderer.proximityFactorToMouseWithRadius linear
        (Sample.pointer 0 0 0 0 None None) n 2 (2 * 2) = 0)
  /\ (forall n : Node.t,
         Renderer.distance (Sample.pointer 0 0 0 0 None None) n = 0 ->
         Renderer.proximityFactorToMouseWithRadius linear
           (Sample.pointer 0 0 0 0 None None) n 2 (2 * 2) = 1)
  /\ (forall n1 n2 : Node.t,
         Renderer.distance (Sample.pointer 0 0 0 0 None None) n1
         <= Renderer.distance (Sample.pointer 0 0 0 0 None None) n2 ->
         Renderer.proximityFactorToMouseWithRadius linear
           (Sample.pointer 0 0 0 0 None None) n2 2 (2 * 2)
         <= Renderer.proximityFactorToMouseWithRadius linear
              (Sample.pointer 0 0 0 0 None None) n1 2 (2 * 2)).
Proof.
  apply (proximity_profile linear (Sample.pointer 0 0 0 0 None None) 2).
  lra.
Defined.

(** C2 (as amended).  For every node and every positive effect radius,
    at every non-zero distance strictly inside the radius, the linear
    factor 1 - t is less than or equal to the quadratic factor
    1 - t * t, where t is the distance divided by the radius: the
    inequality between the two falloffs is the reverse of the stated
    one. *)
Theorem linear_below_quadratic (mouseNode n : Node.t) (radius : R) :
  0 < radius ->
  0 < Renderer.distance mouseNode n < radius ->
  Renderer.proximityFactorToMouseWithRadius linear mouseNode n radius
    (radius * radius)
  <= Renderer.proximityFactorToMouseWithRadius quadratic mouseNode n radius
       (radius * radius).
Proof.
  intros Hr (Hpos & Hin).
  destruct (proximity_inside mouseNode radius Hr linear n Hin) as (Ht & ->).
  destruct (proximity_inside mouseNode radius Hr quadratic n Hin) as (_ & ->).
  nra.
Qed.

(** The distance of the particle at (1,0) to the pointer node at the
    origin. *)
Lemma unit_distance :
  Renderer.distance (Sample.pointer 0 0 0 0 None None)
    (Sample.particle 1 0 0 0 None None) = 1.
Proof.
  unfold Renderer.distance, Renderer.squaredDistance. simpl.
  replace ((1 - 0) * (1 - 0) + (0 - 0) * (0 - 0)) with 1 by ring.
  apply sqrt_1.
Qed.

Lemma linear_below_quadratic_witness :
  Renderer.proximityFactorToMouseWithRadius linear
    (Sample.pointer 0 0 0 0 None None) (Sample.particle 1 0 0 0 None None)
    2 (2 * 2)
  <= Renderer.proximityFactorToMouseWithRadius quadratic
      (Sample.pointer 0 0 0 0 None None) (Sample.particle 1 0 0 0 None None)
      2 (2 * 2).
Proof.
  apply (linear_below_quadratic (Sample.pointer 0 0 0 0 None None)
           (Sample.particle 1 0 0 0 None None) 2).
  - lra.
  - rewrite unit_distance. lra.
Defined.

(** C2 as stated fails: with the pointer node at the origin, a node at
    (1,0) and radius 2, the distance 1 is non-zero and inside the radius,
    the linear factor is 1/2 and the quadratic factor is 3/4. *)
Lemma quadratic_not_below_linear :
  let m := Sample.pointer 0 0 0 0 None None in
  let n := Sample.particle 1 0 0 0 None None in
  0 < Renderer.distance m n < 2
  /\ Renderer.proximityFactorToMouseWithRadius linear m n 2 (2 * 2) = 1 / 2
  /\ Renderer.proximityFactorToMouseWithRadius quadratic m n 2 (2 * 2) = 3 / 4
  /\ ~ (Renderer.proximityFactorToMouseWithRadius quadratic m n 2 (2 * 2)
        <= Renderer.proximityFactorToMouseWithRadius linear m n 2 (2 * 2)).
Proof.
  cbv zeta.
  assert (Hin : Renderer.distance (Sample.pointer 0 0 0 0 None None)
                  (Sample.particle 1 0 0 0 None None) < 2)
    by (rewrite unit_distance; lra).
  assert (H2 : 0 < 2) by lra.
  destruct (proximity_inside _ 2 H2 linear _ Hin) as (_ & ->).
  destruct (proximity_inside _ 2 H2 quadratic _ Hin) as (_ & ->).
  rewrite unit_distance. repeat split; lra.
Qed.

(** ** Edge discovery *)

Lemma edgesFrom_complete (a b : Node.t) (rest : list Node.t) (k : nat) :
  nth_error rest k = Some b ->
  Renderer.hypot (Node.x a - Node.x b) (Node.y a - Node.y b) <= LINK_DISTANCE ->
  In (Renderer.mkEdge a b
        (Renderer.hypot (Node.x a - Node.x b) (Node.y a - Node.y b)))
     (Renderer.edgesFrom a rest).
Proof.
  revert k. induction rest as [ | c rest IH ]; intros k Hk Hd.
  - destruct k; discriminate Hk.
  - simpl. destruct k as [ | k ].
    + injection Hk as ->.
      destruct (Rle_dec _ _); [ now left | contradiction ].
    + simpl in Hk. specialize (IH k Hk Hd).
      destruct (Rle_dec _ _); [ now right | exact IH ].
Qed.

(** Every pair of positions [i < j] whose nodes lie within the link
    distance of each other is pushed, first node first. *)
Lemma computeEdges_complete (nodes : list Node.t) (i j : nat)
  (a b : Node.t) :
  (i < j)%nat ->
  nth_error nodes i = Some a ->
  nth_error nodes j = Some b ->
  Renderer.hypot (Node.x a - Node.x b) (Node.y a - Node.y b) <= LINK_DISTANCE ->
  In (Renderer.mkEdge a b
        (Renderer.hypot (Node.x a - Node.x b) (Node.y a - Node.y b)))
     (Renderer.computeEdges nodes).
Proof.
  revert i j. induction nodes as [ | c nodes IH ]; intros i j Hij Hi Hj Hd.
  - destruct i; discriminate Hi.
  - simpl. apply in_or_app. destruct i as [ | i ].
    + injection Hi as ->. left.
      destruct j as [ | j ]; [ lia | ].
      now apply (edgesFrom_complete a b nodes j).
    + right. destruct j as [ | j ]; [ lia | ].
      apply (IH i j); [ lia | exact Hi | exact Hj | exact Hd ].
Qed.

(** C8.  For every pair of distinct nodes of the array (positions
    [i < j]): when their Euclidean distance equals the link distance
    exactly, the pair is in the edge list and its base opacity is 0; when
    their distance is 0, its base opacity is 1 (and it is in the list as
    well). *)
Theorem threshold_pair_is_edge (nodes : list Node.t) (i j : nat)
  (a b : Node.t) :
  (i < j)%nat ->
  nth_error nodes i = Some a ->
  nth_error nodes j = Some b ->
  let d := Renderer.hypot (Node.x a - Node.x b) (Node.y a - Node.y b) in
  (d = LINK_DISTANCE ->
   In (Renderer.mkEdge a b d) (Renderer.computeEdges nodes)
   /\ Renderer.baseOpacity (Renderer.mkEdge a b d) = 0)
  /\ (d = 0 ->
      In (Renderer.mkEdge a b d) (Renderer.computeEdges nodes)
      /\ Renderer.baseOpacity (Renderer.mkEdge a b d) = 1).
Proof.
  intros Hij Hi Hj d. subst d. split; intros Hd; split.
  - apply (computeEdges_complete nodes i j); auto. rewrite Hd. lra.
  - unfold Renderer.baseOpacity. simpl. rewrite Hd.
    unfold LINK_DISTANCE. apply Rmax_left. lra.
  - apply (computeEdges_complete nodes i j); auto. rewrite Hd.
    unfold LINK_DISTANCE. lra.
  - unfold Renderer.baseOpacity. simpl. rewrite Hd.
    unfold LINK_DISTANCE. rewrite Rmax_right by lra. lra.
Qed.

(** The distance of two particles 100 pixels apart on a horizontal
    line. *)
Lemma link_distance_apart :
  Renderer.hypot
    (Node.x (Sample.particle 200 300 0 0 None None)
     - Node.x (Sample.particle 100 300 0 0 None None))
    (Node.y (Sample.particle 200 300 0 0 None None)
     - Node.y (Sample.particle 100 300 0 0 None None)) = LINK_DISTANCE.
Proof.
  unfold Renderer.hypot, LINK_DISTANCE. simpl.
  replace ((200 - 100) * (200 - 100) + (300 - 300) * (300 - 300))
    with (100 * 100) by ring.
  apply sqrt_square. lra.
Qed.

Lemma threshold_pair_is_edge_witness :
  In (Renderer.mkEdge (Sample.particle 200 300 0 0 None None)
        (Sample.particle 100 300 0 0 None None) LINK_DISTANCE)
     (Renderer.computeEdges
        [Sample.particle 200 300 0 0 None None;
         Sample.particle 100 300 0 0 None None])
  /\ Renderer.baseOpacity
       (Renderer.mkEdge (Sample.particle 200 300 0 0 None None)
          (Sample.particle 100 300 0 0 None None) LINK_DISTANCE) = 0.
Proof.
  rewrite <- link_distance_apart.
  apply (threshold_pair_is_edge
           [Sample.particle 200 300 0 0 None None;
            Sample.particle 100 300 0 0 None None] 0 1
           (Sample.particle 200 300 0 0 None None)
           (Sample.particle 100 300 0 0 None None)).
  - lia.
  - reflexivity.
  - reflexivity.
  - exact link_distance_apart.
Defined.

(** ** The colour utility *)

(** C9 (as amended).  The conversion returns the neutral gray
    (200,200,200) for the empty colour string.  A non-empty string gets no
    fallback, malformed or not: its components are what [parseInt] reads
    from the doubled characters (three characters after the hash sign is
    removed) or from the three character pairs (any other length). *)
Theorem hexToRgb_gray_for_empty_only :
  Color.hexToRgb EmptyString = Color.gray
  /\ forall hex : string,
       hex <> EmptyString ->
       Color.hexToRgb hex
       = let h := Color.remove_first_hash hex in
         if Nat.eqb (String.length h) 3 then
           Color.mkRgb (Color.parseInt_16 (Color.doubled h 0))
                       (Color.parseInt_16 (Color.doubled h 1))
                       (Color.parseInt_16 (Color.doubled h 2))
         else
           Color.mkRgb (Color.parseInt_16 (Color.slice h 0 2))
                       (Color.parseInt_16 (Color.slice h 2 4))
                       (Color.parseInt_16 (Color.slice h 4 6)).
Proof.
  split; [ reflexivity | ].
  intros hex Hne. unfold Color.hexToRgb.
  destruct (String.eqb_spec hex EmptyString) as [E | _];
    [ contradiction | reflexivity ].
Qed.

(** C9 as stated fails: the malformed string [zzzzzz] is converted to
    three not-a-number components, and the malformed [#12345] (five
    digits) to (18, 52, 5). *)
Lemma hexToRgb_malformed_not_gray :
  Color.well_formed "zzzzzz" = false
  /\ Color.hexToRgb "zzzzzz" = Color.mkRgb None None None
  /\ Color.hexToRgb "zzzzzz" <> Color.gray
  /\ Color.well_formed "#12345" = false
  /\ Color.hexToRgb "#12345"
     = Color.mkRgb (Some 18%Z) (Some 52%Z) (Some 5%Z)
  /\ Color.hexToRgb "#12345" <> Color.gray.
Proof.
  repeat split; try reflexivity; vm_compute; discriminate.
Qed.

(** The utility on the inputs it is written for. *)
Lemma hexToRgb_well_formed_samples :
  Color.hexToRgb "#3cd962" = Color.mkRgb (Some 60%Z) (Some 217%Z) (Some 98%Z)
  /\ Color.hexToRgb "#FF00FF" = Color.mkRgb (Some 255%Z) (Some 0%Z) (Some 255%Z)
  /\ Color.hexToRgb "#fa0" = Color.mkRgb (Some 255%Z) (Some 170%Z) (Some 0%Z)
  /\ Color.hexToRgb "c8c8c8" = Color.gray.
Proof. repeat split; reflexivity. Qed.

(** ** Node generation *)

Section Generation.

Variable rnd : nat -> R.
Hypothesis rnd_unit : Store.unit_interval rnd.

Variables width height : R.

(** The drawn factor lies in [0.1, 0.2), so four times the factor lies
    below the floor of one pixel. *)
Lemma generateNode_radius (i : Z) (k : nat) :
  Node.radius (fst (Store.generateNode i width height rnd k)) = 1.
Proof.
  unfold Store.generateNode, Store.pickWeightedColor, Store.bind,
    Store.random, Store.ret. simpl.
  apply Rmax_left.
  pose proof (rnd_unit k) as Hk.
  unfold NODE_RADIUS, RADIUS_MIN_FACTOR, RADIUS_MAX_FACTOR. lra.
Qed.

Lemma generateFrom_radius (count : nat) :
  forall (i : Z) (k : nat),
    Forall (fun n => Node.radius n = 1)
           (fst (Store.generateFrom i count width height rnd k)).
Proof.
  induction count as [ | count IH ]; intros i k.
  - simpl. constructor.
  - simpl. unfold Store.bind at 1.
    pose proof (generateNode_radius i k) as Hn.
    destruct (Store.generateNode i width height rnd k) as [n k'].
    unfold Store.bind at 1.
    specialize (IH (i + 1)%Z k').
    destruct (Store.generateFrom (i + 1) count width height rnd k')
      as [rest k''].
    simpl in *. constructor; assumption.
Qed.

Lemma mouseRadius_one : Store.mouseRadius = 1.
Proof.
  unfold Store.mouseRadius, NODE_RADIUS. apply Rmax_left. lra.
Qed.

End Generation.

(** C10.  Under the shipped constants (base radius 4, factor bounds 0.10
    and 0.2, pointer factor 0.15) every node of the array, the generated
    ones and the pointer node, has radius exactly 1, whatever
    [Math.random] returns: the floor of one pixel always wins over the
    drawn factor. *)
Theorem every_radius_is_one (rnd : nat -> R) (count : nat)
  (width height : R) :
  Store.unit_interval rnd ->
  forall n : Node.t,
    In n (Store.initialNodes count width height rnd) -> Node.radius n = 1.
Proof.
  intros Hrnd n Hin. unfold Store.initialNodes in Hin.
  apply in_app_or in Hin. destruct Hin as [Hgen | [Hm | []]].
  - unfold Store.generateNodes in Hgen.
    pose proof (generateFrom_radius rnd Hrnd width height count 0%Z 0%nat)
      as Hall.
    rewrite Forall_forall in Hall. now apply Hall.
  - subst n. simpl. apply mouseRadius_one.
Qed.

Lemma every_radius_is_one_witness :
  Forall (fun n : Node.t => Node.radius n = 1)
         (Store.initialNodes 2 900 600 Sample.halves).
Proof.
  apply Forall_forall.
  apply (every_radius_is_one Sample.halves 2 900 600).
  intros k. unfold Sample.halves. lra.
Defined.

(** ** The pointer handlers *)

(** With the shipped smoothing factor the interpolation returns its
    first argument. *)
Lemma lerp_shipped (a b : R) : Pointer.lerp a b DRAG_LERP = a.
Proof. unfold Pointer.lerp, DRAG_LERP. ring. Qed.

(** While a drag is on, a processed frame leaves the pointer node where
    it was and pins it there, wherever the pointer is. *)
Lemma processPointer_dragging (rect : Pointer.DOMRect) (s : Pointer.Session)
  (e : Pointer.PointerEvent) :
  Pointer.isDragging s = true ->
  Pointer.lastEvent s = Some e ->
  let m := Pointer.mouseNode s in
  let m' := Pointer.mouseNode (Pointer.processPointer rect s) in
  Node.x m' = Node.x m /\ Node.y m' = Node.y m
  /\ Node.fx m' = Some (Node.x m) /\ Node.fy m' = Some (Node.y m).
Proof.
  intros Hdrag He. unfold Pointer.processPointer.
  rewrite He, Hdrag. simpl. rewrite !lerp_shipped. auto.
Qed.

(** C1, on the program.  In a 900 by 600 viewport whose canvas starts at
    the corner, with the pointer node at the centre where it is created:
    after a pointerdown at (100,100) and a pointer move to (150,100), the
    next processed frame leaves the pointer node at (450,300), pinned
    there; it is not at (150,100).  The same holds when the pointerdown
    is processed in a frame of its own before the move arrives. *)
Theorem drag_with_smoothing_zero_does_not_snap (count : nat)
  (rnd : nat -> R) :
  let s0 := Pointer.initialSession count 900 600 rnd in
  let s1 := Pointer.onPointerDown Sample.down s0 in
  let once :=
    Pointer.processPointer Sample.canvasRect
      (Pointer.handlePointerMoveGlobal Sample.move s1) in
  let twice :=
    Pointer.processPointer Sample.canvasRect
      (Pointer.handlePointerMoveGlobal Sample.move
         (Pointer.processPointer Sample.canvasRect s1)) in
  (Node.x (Pointer.mouseNode once) = 450
   /\ Node.y (Pointer.mouseNode once) = 300
   /\ Node.fx (Pointer.mouseNode once) = Some (900 / 2)
   /\ Node.fy (Pointer.mouseNode once) = Some (600 / 2)
   /\ Node.x (Pointer.mouseNode once) <> 150)
  /\ (Node.x (Pointer.mouseNode twice) = 450
      /\ Node.y (Pointer.mouseNode twice) = 300
      /\ Node.x (Pointer.mouseNode twice) <> 150).
Proof.
  cbv zeta.
  pose proof (processPointer_dragging Sample.canvasRect
                (Pointer.handlePointerMoveGlobal Sample.move
                   (Pointer.onPointerDown Sample.down
                      (Pointer.initialSession count 900 600 rnd)))
                Sample.move eq_refl eq_refl) as H1.
  pose proof (processPointer_dragging Sample.canvasRect
                (Pointer.onPointerDown Sample.down
                   (Pointer.initialSession count 900 600 rnd))
                Sample.down eq_refl eq_refl) as H2.
  pose proof (processPointer_dragging Sample.canvasRect
                (Pointer.handlePointerMoveGlobal Sample.move
                   (Pointer.processPointer Sample.canvasRect
                      (Pointer.onPointerDown Sample.down
                         (Pointer.initialSession count 900 600 rnd))))
                Sample.move eq_refl eq_refl) as H3.
  cbv zeta in H1, H2, H3.
  destruct H1 as (H1x & H1y & H1fx & H1fy).
  destruct H2 as (H2x & H2y & _).
  destruct H3 as (H3x & H3y & _).
  change (Node.x (Pointer.mouseNode
            (Pointer.handlePointerMoveGlobal Sample.move
               (Pointer.onPointerDown Sample.down
                  (Pointer.initialSession count 900 600 rnd)))))
    with (900 / 2) in H1x, H1fx.
  change (Node.y (Pointer.mouseNode
            (Pointer.handlePointerMoveGlobal Sample.move
               (Pointer.onPointerDown Sample.down
                  (Pointer.initialSession count 900 600 rnd)))))
    with (600 / 2) in H1y, H1fy.
  change (Node.x (Pointer.mouseNode
            (Pointer.onPointerDown Sample.down
               (Pointer.initialSession count 900 600 rnd))))
    with (900 / 2) in H2x.
  change (Node.y (Pointer.mouseNode
            (Pointer.onPointerDown Sample.down
               (Pointer.initialSession count 900 600 rnd))))
    with (600 / 2) in H2y.
  change (Pointer.mouseNode
            (Pointer.handlePointerMoveGlobal Sample.move
               (Pointer.processPointer Sample.canvasRect
                  (Pointer.onPointerDown Sample.down
                     (Pointer.initialSession count 900 600 rnd)))))
    with (Pointer.mouseNode
            (Pointer.processPointer Sample.canvasRect
               (Pointer.onPointerDown Sample.down
                  (Pointer.initialSession count 900 600 rnd))))
    in H3x, H3y.
  rewrite H2x in H3x. rewrite H2y in H3y.
  rewrite H1x, H1y, H1fx, H1fy, H3x, H3y.
  repeat split; lra.
Qed.

(** The pointer node is the last element of the array the tick listener
    runs over, so the listener on the closure state is the listener on
    the array. *)
Lemma session_ticked_nodes (w h : R) (s : Pointer.Session) :
  Pointer.nodes (Pointer.ticked w h s)
  = Integrator.ticked w h (Pointer.nodes s).
Proof.
  unfold Pointer.nodes, Pointer.ticked, Integrator.ticked. simpl.
  now rewrite map_app.
Qed.

(** The tick that follows the processed frame of the drag keeps the
    pointer node on the pin the frame gave it: the centre, not the place
    of the pointer. *)
Lemma drag_frame_then_tick (count : nat) (rnd : nat -> R) :
  let s :=
    Pointer.ticked 900 600
      (Pointer.processPointer Sample.canvasRect
         (Pointer.handlePointerMoveGlobal Sample.move
            (Pointer.onPointerDown Sample.down
               (Pointer.initialSession count 900 600 rnd)))) in
  Node.x (Pointer.mouseNode s) = 450 /\ Node.y (Pointer.mouseNode s) = 300.
Proof.
  cbv zeta.
  pose proof (processPointer_dragging Sample.canvasRect
                (Pointer.handlePointerMoveGlobal Sample.move
                   (Pointer.onPointerDown Sample.down
                      (Pointer.initialSession count 900 600 rnd)))
                Sample.move eq_refl eq_refl) as H.
  cbv zeta in H. destruct H as (_ & _ & Hfx & Hfy).
  assert (Hid : Node.id
                  (Pointer.mouseNode
                     (Pointer.processPointer Sample.canvasRect
                        (Pointer.handlePointerMoveGlobal Sample.move
                           (Pointer.onPointerDown Sample.down
                              (Pointer.initialSession count 900 600 rnd)))))
                = MOUSE_ID) by reflexivity.
  change (Pointer.mouseNode (Pointer.ticked 900 600 ?s))
    with (Integrator.tick_node 900 600 (Pointer.mouseNode s)).
  rewrite (tick_node_pinned 900 600 _ _ _ Hid Hfx Hfy).
  simpl. split; lra.
Qed.

(** * Further properties *)

(** ** The colour utility on well-formed input *)

Section HexDigits.

Local Open Scope Z_scope.

Lemma hex_digit_range (c : ascii) (d : Z) :
  Color.hex_digit c = Some d -> 0 <= d <= 15.
Proof.
  unfold Color.hex_digit.
  set (k := Z.of_nat (nat_of_ascii c)).
  destruct ((48 <=? k) && (k <=? 57)) eqn:E1.
  - intros H. injection H as <-. lia.
  - destruct ((97 <=? k) && (k <=? 102)) eqn:E2.
    + intros H. injection H as <-. lia.
    + destruct ((65 <=? k) && (k <=? 70)) eqn:E3.
      * intros H. injection H as <-. lia.
      * intros H. discriminate H.
Qed.

(** A hexadecimal digit is none of the characters the utility or
    [parseInt] treats specially. *)
Lemma hex_digit_plain (c : ascii) (d : Z) :
  Color.hex_digit c = Some d ->
  Color.is_white_space c = false
  /\ Ascii.eqb c "#"%char = false
  /\ Color.parseInt_16 (String c EmptyString) = Some d.
Proof.
  destruct c as [[] [] [] [] [] [] [] []]; intros H;
    vm_compute in H; try discriminate H;
    injection H as <-; vm_compute; auto.
Qed.

(** Two digits read as one byte. *)
Lemma parseInt_16_pair (c1 c2 : ascii) (d1 d2 : Z) :
  Color.hex_digit c1 = Some d1 ->
  Color.hex_digit c2 = Some d2 ->
  Color.parseInt_16 (String c1 (String c2 EmptyString)) = Some (16 * d1 + d2).
Proof.
  destruct c1 as [[] [] [] [] [] [] [] []]; intros H1;
    vm_compute in H1; try discriminate H1; injection H1 as <-;
    (destruct c2 as [[] [] [] [] [] [] [] []]; intros H2;
     vm_compute in H2; try discriminate H2; injection H2 as <-;
     vm_compute; reflexivity).
Qed.

Lemma all_hex_no_hash (s : string) :
  Color.all_hex s = true -> Color.remove_first_hash s = s.
Proof.
  induction s as [ | c s IH ]; intros H; [ reflexivity | ].
  simpl in *. destruct (Color.hex_digit c) as [d | ] eqn:Hc;
    [ | discriminate H ].
  destruct (hex_digit_plain c d Hc) as (_ & -> & _).
  now rewrite IH.
Qed.

End HexDigits.

Section WellFormedColours.

Local Open Scope Z_scope.

(** The leading hash sign of a well-formed string is looked at, and
    nothing else. *)
Lemma well_formed_cons (c : ascii) (rest : string) :
  Color.well_formed (String c rest)
  = if Ascii.eqb c "#"%char
    then Color.all_hex rest
         && (Nat.eqb (String.length rest) 3 || Nat.eqb (String.length rest) 6)
    else Color.all_hex (String c rest)
         && (Nat.eqb (String.length (String c rest)) 3
             || Nat.eqb (String.length (String c rest)) 6).
Proof. destruct c as [[] [] [] [] [] [] [] []]; reflexivity. Qed.

Lemma hexToRgb_three (hex : string) (c1 c2 c3 : ascii) (d1 d2 d3 : Z) :
  Color.remove_first_hash hex
  = String c1 (String c2 (String c3 EmptyString)) ->
  Color.hex_digit c1 = Some d1 ->
  Color.hex_digit c2 = Some d2 ->
  Color.hex_digit c3 = Some d3 ->
  Color.hexToRgb hex
  = Color.mkRgb (Some (16 * d1 + d1)) (Some (16 * d2 + d2))
                (Some (16 * d3 + d3)).
Proof.
  intros Hh H1 H2 H3. unfold Color.hexToRgb.
  destruct hex as [ | c hex ]; [ discriminate Hh | ].
  simpl String.eqb. rewrite Hh.
  cbn [String.length Nat.eqb Color.doubled String.get].
  now rewrite (parseInt_16_pair c1 c1 d1 d1 H1 H1),
    (parseInt_16_pair c2 c2 d2 d2 H2 H2),
    (parseInt_16_pair c3 c3 d3 d3 H3 H3).
Qed.

Lemma hexToRgb_six (hex : string) (c1 c2 c3 c4 c5 c6 : ascii)
  (d1 d2 d3 d4 d5 d6 : Z) :
  Color.remove_first_hash hex
  = String c1 (String c2 (String c3 (String c4 (String c5
      (String c6 EmptyString))))) ->
  Color.hex_digit c1 = Some d1 ->
  Color.hex_digit c2 = Some d2 ->
  Color.hex_digit c3 = Some d3 ->
  Color.hex_digit c4 = Some d4 ->
  Color.hex_digit c5 = Some d5 ->
  Color.hex_digit c6 = Some d6 ->
  Color.hexToRgb hex
  = Color.mkRgb (Some (16 * d1 + d2)) (Some (16 * d3 + d4))
                (Some (16 * d5 + d6)).
Proof.
  intros Hh H1 H2 H3 H4 H5 H6. unfold Color.hexToRgb.
  destruct hex as [ | c hex ]; [ discriminate Hh | ].
  simpl String.eqb. rewrite Hh.
  cbn [String.length Nat.eqb Color.slice String.substring Nat.sub].
  now rewrite (parseInt_16_pair c1 c2 d1 d2 H1 H2),
    (parseInt_16_pair c3 c4 d3 d4 H3 H4),
    (parseInt_16_pair c5 c6 d5 d6 H5 H6).
Qed.

(** A string of hexadecimal digits of length three or six is converted
    to three bytes. *)
Lemma hexToRgb_digits (hex : string) :
  Color.all_hex (Color.remove_first_hash hex) = true ->
  String.length (Color.remove_first_hash hex) = 3%nat
  \/ String.length (Color.remove_first_hash hex) = 6%nat ->
  exists r g b : Z,
    Color.hexToRgb hex = Color.mkRgb (Some r) (Some g) (Some b)
    /\ 0 <= r <= 255 /\ 0 <= g <= 255 /\ 0 <= b <= 255.
Proof.
  intros Hall Hlen.
  remember (Color.remove_first_hash hex) as h eqn:Hh. symmetry in Hh.
  destruct h as [ | c1 [ | c2 [ | c3 h ] ] ];
    try (destruct Hlen as [Hlen | Hlen]; discriminate Hlen).
  simpl in Hall.
  destruct (Color.hex_digit c1) as [d1 | ] eqn:H1; [ | discriminate Hall ].
  destruct (Color.hex_digit c2) as [d2 | ] eqn:H2; [ | discriminate Hall ].
  destruct (Color.hex_digit c3) as [d3 | ] eqn:H3; [ | discriminate Hall ].
  pose proof (hex_digit_range c1 d1 H1) as R1.
  pose proof (hex_digit_range c2 d2 H2) as R2.
  pose proof (hex_digit_range c3 d3 H3) as R3.
  destruct h as [ | c4 [ | c5 [ | c6 [ | c7 h ] ] ] ];
    try (destruct Hlen as [Hlen | Hlen]; discriminate Hlen).
  - exists (16 * d1 + d1), (16 * d2 + d2), (16 * d3 + d3).
    split; [ now apply (hexToRgb_three hex c1 c2 c3) | lia ].
  - simpl in Hall.
    destruct (Color.hex_digit c4) as [d4 | ] eqn:H4; [ | discriminate Hall ].
    destruct (Color.hex_digit c5) as [d5 | ] eqn:H5; [ | discriminate Hall ].
    destruct (Color.hex_digit c6) as [d6 | ] eqn:H6; [ | discriminate Hall ].
    pose proof (hex_digit_range c4 d4 H4) as R4.
    pose proof (hex_digit_range c5 d5 H5) as R5.
    pose proof (hex_digit_range c6 d6 H6) as R6.
    exists (16 * d1 + d2), (16 * d3 + d4), (16 * d5 + d6).
    split; [ now apply (hexToRgb_six hex c1 c2 c3 c4 c5 c6) | lia ].
Qed.

Lemma well_formed_shape (hex : string) :
  Color.well_formed hex = true ->
  Color.all_hex (Color.remove_first_hash hex) = true
  /\ (String.length (Color.remove_first_hash hex) = 3%nat
      \/ String.length (Color.remove_first_hash hex) = 6%nat).
Proof.
  destruct hex as [ | c rest ]; [ discriminate | ].
  rewrite well_formed_cons.
  assert (Hlen : forall s : string,
             Nat.eqb (String.length s) 3 || Nat.eqb (String.length s) 6 = true ->
             String.length s = 3%nat \/ String.length s = 6%nat).
  { intros s Hs. apply orb_true_iff in Hs.
    destruct Hs as [Hs | Hs]; apply Nat.eqb_eq in Hs; auto. }
  destruct (Ascii.eqb c "#"%char) eqn:E; intros H;
    apply andb_true_iff in H; destruct H as (Hall & Hl).
  - simpl. rewrite E. auto.
  - rewrite (all_hex_no_hash _ Hall). auto.
Qed.

End WellFormedColours.

(** X1.  On every well-formed colour string (an optional hash sign, then
    three or six hexadecimal digits) the conversion returns three
    numbers between 0 and 255: no component of a well-formed colour is
    not-a-number. *)
Theorem hexToRgb_well_formed_bytes (hex : string) :
  Color.well_formed hex = true ->
  exists r g b : Z,
    Color.hexToRgb hex = Color.mkRgb (Some r) (Some g) (Some b)
    /\ (0 <= r <= 255)%Z /\ (0 <= g <= 255)%Z /\ (0 <= b <= 255)%Z.
Proof.
  intros H. destruct (well_formed_shape hex H) as (Hall & Hlen).
  now apply hexToRgb_digits.
Qed.

Lemma hexToRgb_well_formed_bytes_witness :
  exists r g b : Z,
    Color.hexToRgb "#e9fbfd" = Color.mkRgb (Some r) (Some g) (Some b)
    /\ (0 <= r <= 255)%Z /\ (0 <= g <= 255)%Z /\ (0 <= b <= 255)%Z.
Proof.
  apply (hexToRgb_well_formed_bytes "#e9fbfd"). reflexivity.
Defined.

(** X2.  The three-character form is the shorthand of the
    six-character form with every digit doubled: for hexadecimal digits
    of values d1, d2, d3 both forms are converted to
    (17 d1, 17 d2, 17 d3). *)
Theorem hexToRgb_shorthand (c1 c2 c3 : ascii) (d1 d2 d3 : Z) :
  Color.hex_digit c1 = Some d1 ->
  Color.hex_digit c2 = Some d2 ->
  Color.hex_digit c3 = Some d3 ->
  Color.hexToRgb (String "#" (String c1 (String c2 (String c3 EmptyString))))
  = Color.mkRgb (Some (17 * d1)%Z) (Some (17 * d2)%Z) (Some (17 * d3)%Z)
  /\ Color.hexToRgb
       (String "#" (String c1 (String c1 (String c2 (String c2
          (String c3 (String c3 EmptyString)))))))
     = Color.mkRgb (Some (17 * d1)%Z) (Some (17 * d2)%Z) (Some (17 * d3)%Z).
Proof.
  intros H1 H2 H3.
  replace (17 * d1)%Z with (16 * d1 + d1)%Z by lia.
  replace (17 * d2)%Z with (16 * d2 + d2)%Z by lia.
  replace (17 * d3)%Z with (16 * d3 + d3)%Z by lia.
  split.
  - now apply (hexToRgb_three _ c1 c2 c3).
  - now apply (hexToRgb_six _ c1 c1 c2 c2 c3 c3).
Qed.

Lemma hexToRgb_shorthand_witness :
  Color.hexToRgb "#fa0"
  = Color.mkRgb (Some (17 * 15)%Z) (Some (17 * 10)%Z) (Some (17 * 0)%Z)
  /\ Color.hexToRgb "#ffaa00"
     = Color.mkRgb (Some (17 * 15)%Z) (Some (17 * 10)%Z) (Some (17 * 0)%Z).
Proof.
  apply (hexToRgb_shorthand "f" "a" "0" 15 10 0); reflexivity.
Defined.

(** X3.  The hash sign is optional in front of hexadecimal digits: a
    non-empty string of digits is converted the same with and without
    it.  (Without digits it is not: the empty string gives gray, the
    lone hash sign three not-a-number components.) *)
Theorem hexToRgb_hash_optional (h : string) :
  Color.all_hex h = true ->
  h <> EmptyString ->
  Color.hexToRgb (String "#" h) = Color.hexToRgb h.
Proof.
  intros Hall Hne. unfold Color.hexToRgb.
  destruct h as [ | c h ]; [ contradiction | ].
  simpl String.eqb.
  rewrite (all_hex_no_hash _ Hall).
  reflexivity.
Qed.

Lemma hexToRgb_hash_optional_witness :
  Color.hexToRgb "#FF00FF" = Color.hexToRgb "FF00FF"
  /\ Color.hexToRgb "#" <> Color.hexToRgb EmptyString.
Proof.
  split.
  - apply (hexToRgb_hash_optional "FF00FF"); [ reflexivity | discriminate ].
  - vm_compute. discriminate.
Defined.

(** ** Node generation, node by node *)

Section GeneratedNodes.

Variable rnd : nat -> R.
Variables width height : R.

(** The callback reads six numbers: node [i] made at cursor [k] is
    built from the draws [k], ..., [k + 5]. *)
Lemma generateNode_eq (i : Z) (k : nat) :
  Store.generateNode i width height rnd k
  = (Node.mk i (rnd (1 + k)%nat * width) (rnd (2 + k)%nat * height)
       ((rnd (3 + k)%nat - 5 / 10) * 2 * SPEED_FACTOR)
       ((rnd (4 + k)%nat - 5 / 10) * 2 * SPEED_FACTOR)
       (Rmax 1 (NODE_RADIUS
                * (RADIUS_MIN_FACTOR
                   + rnd k * (RADIUS_MAX_FACTOR - RADIUS_MIN_FACTOR))))
       (fst (Store.pickWeightedColor rnd (5 + k)%nat)) None None,
     (6 + k)%nat).
Proof. reflexivity. Qed.

Lemma generateFrom_cons (i : Z) (count k : nat) :
  Store.generateFrom i (S count) width height rnd k
  = (fst (Store.generateNode i width height rnd k)
       :: fst (Store.generateFrom (i + 1)%Z count width height rnd (6 + k)%nat),
     snd (Store.generateFrom (i + 1)%Z count width height rnd (6 + k)%nat)).
Proof.
  cbn [Store.generateFrom]. unfold Store.bind.
  rewrite generateNode_eq. cbv iota.
  destruct (Store.generateFrom (i + 1)%Z count width height rnd (6 + k)%nat).
  reflexivity.
Qed.

Lemma generateFrom_length (count : nat) :
  forall (i : Z) (k : nat),
    List.length (fst (Store.generateFrom i count width height rnd k)) = count.
Proof.
  induction count as [ | count IH ]; intros i k; [ reflexivity | ].
  rewrite generateFrom_cons. simpl. now rewrite IH.
Qed.

(** The node at position [j] is the callback's result for index
    [i + j], made from the draws [k + 6 j], ..., [k + 6 j + 5]. *)
Lemma generateFrom_nth (count : nat) :
  forall (i : Z) (k j : nat) (n : Node.t),
    nth_error (fst (Store.generateFrom i count width height rnd k)) j = Some n ->
    n = fst (Store.generateNode (i + Z.of_nat j) width height rnd (6 * j + k)%nat).
Proof.
  induction count as [ | count IH ]; intros i k j n Hn.
  - destruct j; discriminate Hn.
  - rewrite generateFrom_cons in Hn. destruct j as [ | j ].
    + injection Hn as <-. simpl. now rewrite Z.add_0_r.
    + simpl nth_error in Hn. apply IH in Hn. subst n.
      f_equal. f_equal; lia.
Qed.

Lemma generateFrom_ids (count : nat) :
  forall (i : Z) (k : nat),
    map Node.id (fst (Store.generateFrom i count width height rnd k))
    = map (fun j => (i + Z.of_nat j)%Z) (seq 0 count).
Proof.
  induction count as [ | count IH ]; intros i k; [ reflexivity | ].
  rewrite generateFrom_cons. simpl. rewrite IH, Z.add_0_r. f_equal.
  rewrite <- seq_shift, map_map. apply map_ext. intros j. lia.
Qed.

End GeneratedNodes.

Lemma NoDup_map_of_nat (l : list nat) :
  NoDup l -> NoDup (map Z.of_nat l).
Proof.
  induction 1 as [ | a l Ha Hl IH ]; simpl; constructor; [ | exact IH ].
  rewrite in_map_iff. intros (b & Hb & Hin).
  apply Nat2Z.inj in Hb. now subst b.
Qed.

(** X4.  The node array of an epoch has [count + 1] nodes whose
    identities are 0, 1, ..., count - 1 in this order, followed by the
    pointer identity -1: identities are pairwise distinct and exactly
    one node, the last, is the pointer node. *)
Theorem initialNodes_ids (rnd : nat -> R) (count : nat) (width height : R) :
  map Node.id (Store.initialNodes count width height rnd)
  = map Z.of_nat (seq 0 count) ++ [MOUSE_ID]
  /\ NoDup (map Node.id (Store.initialNodes count width height rnd))
  /\ List.length (Store.initialNodes count width height rnd) = S count.
Proof.
  assert (Hids : map Node.id (Store.initialNodes count width height rnd)
                 = map Z.of_nat (seq 0 count) ++ [MOUSE_ID]).
  { unfold Store.initialNodes, Store.generateNodes.
    rewrite map_app, generateFrom_ids. reflexivity. }
  split; [ exact Hids | split ].
  - rewrite Hids. apply NoDup_app.
    + apply NoDup_map_of_nat, seq_NoDup.
    + repeat constructor. intros [].
    + intros z Hz [Hm | []]. apply in_map_iff in Hz.
      destruct Hz as (j & Hj & _). unfold MOUSE_ID in Hm. lia.
  - unfold Store.initialNodes, Store.generateNodes.
    rewrite length_app, generateFrom_length. simpl. lia.
Qed.

(** The colour drawn at cursor [k], by the band the draw falls in. *)
Lemma pickWeightedColor_cases (rnd : nat -> R) (k : nat) :
  (rnd k <= 75 / 100
   /\ fst (Store.pickWeightedColor rnd k) = "#3cd962"%string)
  \/ (75 / 100 < rnd k <= 93 / 100
      /\ fst (Store.pickWeightedColor rnd k) = "#FF00FF"%string)
  \/ (93 / 100 < rnd k <= 1
      /\ fst (Store.pickWeightedColor rnd k) = "#e9fbfd"%string)
  \/ (1 < rnd k
      /\ fst (Store.pickWeightedColor rnd k) = "#3cd962"%string).
Proof.
  unfold Store.pickWeightedColor, Store.bind, Store.random, Store.ret.
  cbn [fst COLOR_WEIGHTS Store.pick_band Store.first_color].
  unfold COLOR_WEIGHTS. cbn [Store.pick_band Store.first_color].
  destruct (Rle_dec (rnd k) (0 + 75 / 100)) as [H1 | H1];
    [ left; split; [ lra | reflexivity ] | ].
  destruct (Rle_dec (rnd k) (0 + 75 / 100 + 18 / 100)) as [H2 | H2];
    [ right; left; split; [ lra | reflexivity ] | ].
  destruct (Rle_dec (rnd k) (0 + 75 / 100 + 18 / 100 + 7 / 100)) as [H3 | H3];
    [ right; right; left; split; [ lra | reflexivity ] | ].
  right; right; right. split; [ lra | reflexivity ].
Qed.

(** X5.  [pickWeightedColor] reads one draw r and answers by cumulative
    bands (sums taken exactly): the first colour for r <= 0.75, the
    second for 0.75 < r <= 0.93, the third for 0.93 < r <= 1, and the
    first again, as the fallback, for a draw above 1.  For a draw of
    [Math.random], which is below 1, the fallback is never taken and the
    three colours have the bands of their weights. *)
Theorem pickWeightedColor_bands (rnd : nat -> R) (k : nat) :
  snd (Store.pickWeightedColor rnd k) = S k
  /\ (rnd k <= 75 / 100 ->
      fst (Store.pickWeightedColor rnd k) = "#3cd962"%string)
  /\ (75 / 100 < rnd k <= 93 / 100 ->
      fst (Store.pickWeightedColor rnd k) = "#FF00FF"%string)
  /\ (93 / 100 < rnd k <= 1 ->
      fst (Store.pickWeightedColor rnd k) = "#e9fbfd"%string)
  /\ (1 < rnd k ->
      fst (Store.pickWeightedColor rnd k) = "#3cd962"%string).
Proof.
  split; [ reflexivity | ].
  destruct (pickWeightedColor_cases rnd k)
    as [(H & ->) | [(H & ->) | [(H & ->) | (H & ->)]]];
    repeat split; intros H'; try reflexivity; exfalso; lra.
Qed.

Lemma pickWeightedColor_in_table (rnd : nat -> R) (k : nat) :
  In (fst (Store.pickWeightedColor rnd k)) (map fst COLOR_WEIGHTS).
Proof.
  destruct (pickWeightedColor_cases rnd k)
    as [(_ & ->) | [(_ & ->) | [(_ & ->) | (_ & ->)]]]; simpl; auto.
Qed.

(** X6.  When [Math.random] returns numbers in [0,1) and the viewport
    has positive width and height, every generated node starts inside the
    viewport (0 <= x < width, 0 <= y < height), with both velocity
    components in [-0.44, 0.44), unpinned, and with one of the three
    colours of the table. *)
Theorem generated_nodes_start_inside (rnd : nat -> R) (count : nat)
  (width height : R) :
  Store.unit_interval rnd ->
  0 < width ->
  0 < height ->
  Forall (fun n : Node.t =>
            0 <= Node.x n < width
            /\ 0 <= Node.y n < height
            /\ - SPEED_FACTOR <= Node.vx n < SPEED_FACTOR
            /\ - SPEED_FACTOR <= Node.vy n < SPEED_FACTOR
            /\ Node.fx n = None /\ Node.fy n = None
            /\ In (Node.color n) (map fst COLOR_WEIGHTS))
         (fst (Store.generateNodes count width height rnd 0%nat)).
Proof.
  intros Hrnd Hw Hh. apply Forall_forall. intros n Hin.
  apply In_nth_error in Hin. destruct Hin as (j & Hj).
  unfold Store.generateNodes in Hj.
  apply generateFrom_nth in Hj. subst n.
  rewrite generateNode_eq. cbn [fst Node.x Node.y Node.vx Node.vy
                                 Node.fx Node.fy Node.color].
  pose proof (Hrnd (1 + (6 * j + 0))%nat) as H1.
  pose proof (Hrnd (2 + (6 * j + 0))%nat) as H2.
  pose proof (Hrnd (3 + (6 * j + 0))%nat) as H3.
  pose proof (Hrnd (4 + (6 * j + 0))%nat) as H4.
  unfold SPEED_FACTOR.
  repeat split; try nra; try reflexivity.
  apply pickWeightedColor_in_table.
Qed.

Lemma generated_nodes_start_inside_witness :
  Forall (fun n : Node.t =>
            0 <= Node.x n < 900
            /\ 0 <= Node.y n < 600
            /\ - SPEED_FACTOR <= Node.vx n < SPEED_FACTOR
            /\ - SPEED_FACTOR <= Node.vy n < SPEED_FACTOR
            /\ Node.fx n = None /\ Node.fy n = None
            /\ In (Node.color n) (map fst COLOR_WEIGHTS))
         (fst (Store.generateNodes 3 900 600 Sample.halves 0%nat)).
Proof.
  apply (generated_nodes_start_inside Sample.halves 3 900 600).
  - intros k. unfold Sample.halves. lra.
  - lra.
  - lra.
Defined.

(** ** More on the tick handler *)

Section TickHandlerMore.

Variables width height : R.

Lemma tick_node_frame (n : Node.t) :
  Node.id (Integrator.tick_node width height n) = Node.id n
  /\ Node.radius (Integrator.tick_node width height n) = Node.radius n
  /\ Node.color (Integrator.tick_node width height n) = Node.color n
  /\ Node.fx (Integrator.tick_node width height n) = Node.fx n
  /\ Node.fy (Integrator.tick_node width height n) = Node.fy n.
Proof.
  destruct (Integrator.pinned_pointer n) eqn:Hp.
  - unfold Integrator.pinned_pointer in Hp. unfold Integrator.tick_node.
    destruct (Z.eqb (Node.id n) MOUSE_ID), (Node.fx n), (Node.fy n);
      try discriminate Hp. simpl. auto.
  - rewrite (tick_node_free width height n Hp).
    destruct (reflectX_frame width n) as (H1 & H2 & _ & _ & H3 & H4 & H5).
    destruct (reflectY_frame height (Integrator.reflectX width n))
      as (G1 & G2 & _ & _ & G3 & G4 & G5).
    rewrite G1, G2, G3, G4, G5. auto.
Qed.

Lemma pinned_pointer_tick (n : Node.t) :
  Integrator.pinned_pointer (Integrator.tick_node width height n)
  = Integrator.pinned_pointer n.
Proof.
  destruct (tick_node_frame n) as (H1 & _ & _ & H2 & H3).
  unfold Integrator.pinned_pointer. now rewrite H1, H2, H3.
Qed.

(** A node strictly between the walls on both axes is left as it is. *)
Lemma tick_node_interior (n : Node.t) :
  Integrator.pinned_pointer n = false ->
  Node.radius n < Node.x n < width - Node.radius n ->
  Node.radius n < Node.y n < height - Node.radius n ->
  Integrator.tick_node width height n = n.
Proof.
  intros Hp Hx Hy. rewrite (tick_node_free width height n Hp).
  unfold Integrator.reflectX.
  destruct (Rle_dec _ _); [ lra | ]. destruct (Rge_dec _ _); [ lra | ].
  unfold Integrator.reflectY.
  destruct (Rle_dec _ _); [ lra | ]. destruct (Rge_dec _ _); [ lra | ].
  reflexivity.
Qed.

Lemma Rabs_idem_neg (v : R) : - Rabs (- Rabs v) = - Rabs v.
Proof. now rewrite Rabs_Ropp, Rabs_Rabsolu. Qed.

Lemma reflectX_idem (n : Node.t) :
  2 * Node.radius n < width ->
  Integrator.reflectX width (Integrator.reflectX width n)
  = Integrator.reflectX width n.
Proof.
  intros Hw. destruct n as [i x y vx vy r c qx qy]. simpl in Hw.
  unfold Integrator.reflectX, Node.set_x_vx. simpl.
  destruct (Rle_dec x r) as [H1 | H1]; simpl.
  - destruct (Rle_dec r r) as [_ | H2]; [ | lra ].
    now rewrite Rabs_Rabsolu.
  - destruct (Rge_dec x (width - r)) as [H2 | H2]; simpl.
    + destruct (Rle_dec (width - r) r) as [H3 | _]; [ lra | ].
      destruct (Rge_dec (width - r) (width - r)) as [_ | H4]; [ | lra ].
      now rewrite Rabs_idem_neg.
    + destruct (Rle_dec x r) as [H3 | _]; [ lra | ].
      destruct (Rge_dec x (width - r)) as [H4 | _]; [ lra | ].
      reflexivity.
Qed.

Lemma reflectY_idem (n : Node.t) :
  2 * Node.radius n < height ->
  Integrator.reflectY height (Integrator.reflectY height n)
  = Integrator.reflectY height n.
Proof.
  intros Hw. destruct n as [i x y vx vy r c qx qy]. simpl in Hw.
  unfold Integrator.reflectY, Node.set_y_vy. simpl.
  destruct (Rle_dec y r) as [H1 | H1]; simpl.
  - destruct (Rle_dec r r) as [_ | H2]; [ | lra ].
    now rewrite Rabs_Rabsolu.
  - destruct (Rge_dec y (height - r)) as [H2 | H2]; simpl.
    + destruct (Rle_dec (height - r) r) as [H3 | _]; [ lra | ].
      destruct (Rge_dec (height - r) (height - r)) as [_ | H4]; [ | lra ].
      now rewrite Rabs_idem_neg.
    + destruct (Rle_dec y r) as [H3 | _]; [ lra | ].
      destruct (Rge_dec y (height - r)) as [H4 | _]; [ lra | ].
      reflexivity.
Qed.

(** The two axes are handled independently. *)
Lemma reflect_commute (n : Node.t) :
  Integrator.reflectX width (Integrator.reflectY height n)
  = Integrator.reflectY height (Integrator.reflectX width n).
Proof.
  destruct n as [i x y vx vy r c qx qy].
  unfold Integrator.reflectX, Integrator.reflectY,
    Node.set_x_vx, Node.set_y_vy. cbn.
  repeat (match goal with
          | |- context [Rle_dec ?a ?b] => destruct (Rle_dec a b)
          | |- context [Rge_dec ?a ?b] => destruct (Rge_dec a b)
          end; cbn in *); first [ reflexivity | exfalso; lra ].
Qed.

Lemma tick_node_idem (n : Node.t) :
  2 * Node.radius n < width ->
  2 * Node.radius n < height ->
  Integrator.tick_node width height (Integrator.tick_node width height n)
  = Integrator.tick_node width height n.
Proof.
  intros Hw Hh. destruct (Integrator.pinned_pointer n) eqn:Hp.
  - unfold Integrator.pinned_pointer in Hp. unfold Integrator.tick_node at 2.
    destruct (Z.eqb (Node.id n) MOUSE_ID) eqn:Hid,
             (Node.fx n) as [px | ] eqn:Hfx, (Node.fy n) as [py | ] eqn:Hfy;
      try discriminate Hp.
    unfold Integrator.tick_node. cbn. rewrite ?Hid, ?Hfx, ?Hfy. cbn.
    rewrite ?Hid, ?Hfx, ?Hfy. reflexivity.
  - pose proof (pinned_pointer_tick n) as Hp'. rewrite Hp in Hp'.
    rewrite (tick_node_free width height _ Hp').
    rewrite (tick_node_free width height n Hp).
    rewrite reflect_commute.
    rewrite reflectX_idem by exact Hw.
    destruct (reflectX_frame width n) as (_ & Hr & _).
    apply reflectY_idem. rewrite Hr. exact Hh.
Qed.

End TickHandlerMore.

(** X7.  A pass of the tick handler keeps the array's length and, for
    every node (the pinned pointer node included), its identity, radius,
    colour and both pin fields: it writes positions and velocities
    only. *)
Theorem ticked_frame (width height : R) (nodes : list Node.t) :
  List.length (Integrator.ticked width height nodes) = List.length nodes
  /\ forall (i : nat) (n : Node.t),
       nth_error nodes i = Some n ->
       exists n',
         nth_error (Integrator.ticked width height nodes) i = Some n'
         /\ Node.id n' = Node.id n
         /\ Node.radius n' = Node.radius n
         /\ Node.color n' = Node.color n
         /\ Node.fx n' = Node.fx n
         /\ Node.fy n' = Node.fy n.
Proof.
  split.
  - unfold Integrator.ticked. apply length_map.
  - intros i n Hn. exists (Integrator.tick_node width height n).
    split; [ now apply ticked_nth | apply tick_node_frame ].
Qed.

(** X8.  When no node of the array is the pinned pointer node and
    every node lies strictly between the walls on both axes
    (radius < x < width - radius, radius < y < height - radius), a pass of
    the tick handler changes nothing. *)
Theorem ticked_interior_unchanged (width height : R) (nodes : list Node.t) :
  Forall (fun n : Node.t =>
            Integrator.pinned_pointer n = false
            /\ Node.radius n < Node.x n < width - Node.radius n
            /\ Node.radius n < Node.y n < height - Node.radius n) nodes ->
  Integrator.ticked width height nodes = nodes.
Proof.
  intros Hall. unfold Integrator.ticked.
  induction Hall as [ | n nodes (Hp & Hx & Hy) _ IH ]; [ reflexivity | ].
  simpl. now rewrite IH, tick_node_interior.
Qed.

Lemma ticked_interior_unchanged_witness :
  Integrator.ticked 900 600
    [Sample.particle 10 20 1 (-1) None None;
     Sample.pointer 450 300 0 0 None None]
  = [Sample.particle 10 20 1 (-1) None None;
     Sample.pointer 450 300 0 0 None None].
Proof.
  apply (ticked_interior_unchanged 900 600).
  repeat constructor; simpl; lra.
Defined.

(** X9.  After a pass of the tick handler, a node other than the pinned
    pointer node that was at or beyond a wall sits on that wall and does
    not move towards it: at the left or top wall its velocity component
    is non-negative, at the right or bottom wall non-positive.  The low
    wall is tested first. *)
Theorem ticked_turns_inward (width height : R) (nodes : list Node.t)
  (i : nat) (n : Node.t) :
  nth_error nodes i = Some n ->
  Integrator.pinned_pointer n = false ->
  exists n',
    nth_error (Integrator.ticked width height nodes) i = Some n'
    /\ (Node.x n <= Node.radius n ->
        Node.x n' = Node.radius n /\ 0 <= Node.vx n')
    /\ (Node.radius n < Node.x n -> Node.x n >= width - Node.radius n ->
        Node.x n' = width - Node.radius n /\ Node.vx n' <= 0)
    /\ (Node.y n <= Node.radius n ->
        Node.y n' = Node.radius n /\ 0 <= Node.vy n')
    /\ (Node.radius n < Node.y n -> Node.y n >= height - Node.radius n ->
        Node.y n' = height - Node.radius n /\ Node.vy n' <= 0).
Proof.
  intros Hn Hp. exists (Integrator.tick_node width height n).
  split; [ now apply ticked_nth | ].
  destruct (free_node_step width height n Hp) as (_ & HX & HY).
  pose proof (Rabs_pos (Node.vx n)) as Hax.
  pose proof (Rabs_pos (Node.vy n)) as Hay.
  repeat split; intros;
    destruct HX as [HX | [HX | HX]], HY as [HY | [HY | HY]]; lra.
Qed.

Lemma ticked_turns_inward_witness :
  exists n',
    nth_error (Integrator.ticked 900 600
                 [Sample.particle 950 (-3) 2 (-1) None None]) 0 = Some n'
    /\ (950 <= 1 -> Node.x n' = 1 /\ 0 <= Node.vx n')
    /\ (1 < 950 -> 950 >= 900 - 1 -> Node.x n' = 900 - 1 /\ Node.vx n' <= 0)
    /\ (-3 <= 1 -> Node.y n' = 1 /\ 0 <= Node.vy n')
    /\ (1 < -3 -> -3 >= 600 - 1 -> Node.y n' = 600 - 1 /\ Node.vy n' <= 0).
Proof.
  apply (ticked_turns_inward 900 600
           [Sample.particle 950 (-3) 2 (-1) None None] 0%nat
           (Sample.particle 950 (-3) 2 (-1) None None));
    reflexivity.
Defined.

(** X10.  In a viewport wider and higher than every node's diameter, a
    second pass of the tick handler right after a first one (no movement
    in between) changes nothing: the pass is idempotent. *)
Theorem ticked_idempotent (width height : R) (nodes : list Node.t) :
  Forall (fun n : Node.t =>
            2 * Node.radius n < width /\ 2 * Node.radius n < height) nodes ->
  Integrator.ticked width height (Integrator.ticked width height nodes)
  = Integrator.ticked width height nodes.
Proof.
  intros Hall. unfold Integrator.ticked.
  induction Hall as [ | n nodes (Hw & Hh) _ IH ]; [ reflexivity | ].
  simpl. now rewrite IH, tick_node_idem.
Qed.

Lemma ticked_idempotent_witness :
  Integrator.ticked 900 600
    (Integrator.ticked 900 600
       [Sample.particle 950 (-3) 2 (-1) None None;
        Sample.pointer 450 300 0 0 (Some 5) (Some 7)])
  = Integrator.ticked 900 600
      [Sample.particle 950 (-3) 2 (-1) None None;
       Sample.pointer 450 300 0 0 (Some 5) (Some 7)].
Proof.
  apply (ticked_idempotent 900 600).
  repeat constructor; simpl; lra.
Defined.

(** ** More on the pointer handlers *)

(** X11.  Pointer moves are coalesced: of two moves that arrive before
    the frame is served only the later one counts.  The state after both
    is the state after the later one alone; one frame is requested, not
    two. *)
Theorem pointer_moves_coalesce (e1 e2 : Pointer.PointerEvent)
  (s : Pointer.Session) :
  Pointer.handlePointerMoveGlobal e2 (Pointer.handlePointerMoveGlobal e1 s)
  = Pointer.handlePointerMoveGlobal e2 s
  /\ Pointer.lastEvent (Pointer.handlePointerMoveGlobal e2 s) = Some e2
  /\ Pointer.rafId (Pointer.handlePointerMoveGlobal e2 s) <> None.
Proof.
  destruct s as [ps m [h | ] le dr ap sim nh cap];
    repeat split; try reflexivity; discriminate.
Qed.

Lemma clamp_range (v w : R) : 0 <= w -> 0 <= Rmax 0 (Rmin v w) <= w.
Proof.
  intros Hw. split; [ apply Rmax_l | ].
  apply Rmax_lub; [ exact Hw | apply Rmin_r ].
Qed.

Lemma clamp_inside (v w : R) : 0 <= v <= w -> Rmax 0 (Rmin v w) = v.
Proof.
  intros (H0 & Hw). rewrite Rmin_left by exact Hw.
  now apply Rmax_right.
Qed.

Lemma clamp_low (v w : R) : 0 <= w -> v <= 0 -> Rmax 0 (Rmin v w) = 0.
Proof.
  intros Hw Hv. apply Rmax_left.
  apply Rle_trans with v; [ apply Rmin_l | exact Hv ].
Qed.

Lemma clamp_high (v w : R) : 0 <= w -> w <= v -> Rmax 0 (Rmin v w) = w.
Proof.
  intros Hw Hv. rewrite Rmin_right by exact Hv. now apply Rmax_right.
Qed.

(** X12.  A frame processed outside a drag, for a canvas rectangle of
    non-negative size, puts the pointer node at the pointer position
    relative to the canvas clamped to the rectangle: a coordinate below 0
    becomes 0, one above the width (height) becomes the width (height),
    one in between is followed exactly.  The node is pinned at that
    position and keeps every other field; the simulation's alpha is set
    to 0.1, the event and the frame handle are consumed, and nothing
    else of the state changes. *)
Theorem processPointer_hover (rect : Pointer.DOMRect) (s : Pointer.Session)
  (e : Pointer.PointerEvent) :
  Pointer.isDragging s = false ->
  Pointer.lastEvent s = Some e ->
  0 <= Pointer.width rect ->
  0 <= Pointer.height rect ->
  exists cx cy : R,
    Pointer.processPointer rect s
    = Pointer.mkSession (Pointer.particles s)
        (Node.mk (Node.id (Pointer.mouseNode s)) cx cy
           (Node.vx (Pointer.mouseNode s)) (Node.vy (Pointer.mouseNode s))
           (Node.radius (Pointer.mouseNode s))
           (Node.color (Pointer.mouseNode s)) (Some cx) (Some cy))
        None None false (Pointer.activePointerId s)
        (Pointer.mkSim (1 / 10)
           (Pointer.alphaTarget (Pointer.simulation s))
           (Pointer.running (Pointer.simulation s)))
        (Pointer.nextHandle s) (Pointer.captured s)
    /\ 0 <= cx <= Pointer.width rect
    /\ 0 <= cy <= Pointer.height rect
    /\ (Pointer.clientX e - Pointer.left rect <= 0 -> cx = 0)
    /\ (0 <= Pointer.clientX e - Pointer.left rect <= Pointer.width rect ->
        cx = Pointer.clientX e - Pointer.left rect)
    /\ (Pointer.width rect <= Pointer.clientX e - Pointer.left rect ->
        cx = Pointer.width rect)
    /\ (Pointer.clientY e - Pointer.top rect <= 0 -> cy = 0)
    /\ (0 <= Pointer.clientY e - Pointer.top rect <= Pointer.height rect ->
        cy = Pointer.clientY e - Pointer.top rect)
    /\ (Pointer.height rect <= Pointer.clientY e - Pointer.top rect ->
        cy = Pointer.height rect).
Proof.
  intros Hd He Hw Hh.
  exists (Rmax 0 (Rmin (Pointer.clientX e - Pointer.left rect)
                       (Pointer.width rect))),
         (Rmax 0 (Rmin (Pointer.clientY e - Pointer.top rect)
                       (Pointer.height rect))).
  split.
  { unfold Pointer.processPointer. rewrite He, Hd. reflexivity. }
  split; [ now apply clamp_range | ].
  split; [ now apply clamp_range | ].
  repeat split; intros Hc;
    first [ now apply clamp_low | now apply clamp_inside
          | now apply clamp_high ].
Qed.

Lemma processPointer_hover_witness :
  exists cx cy : R,
    Pointer.processPointer Sample.canvasRect
      (Pointer.handlePointerMoveGlobal (Pointer.mkEvent 1000 (-5) true 1%Z)
         (Pointer.initialSession 2 900 600 Sample.halves))
    = Pointer.mkSession
        (fst (Store.generateNodes 2 900 600 Sample.halves 0%nat))
        (Node.mk MOUSE_ID cx cy 0 0 Store.mouseRadius "#3cd962"%string
           (Some cx) (Some cy))
        None None false None (Pointer.mkSim (1 / 10) 0 true) 1%nat None
    /\ 0 <= cx <= 900
    /\ 0 <= cy <= 600
    /\ (1000 - 0 <= 0 -> cx = 0)
    /\ (0 <= 1000 - 0 <= 900 -> cx = 1000 - 0)
    /\ (900 <= 1000 - 0 -> cx = 900)
    /\ (-5 - 0 <= 0 -> cy = 0)
    /\ (0 <= -5 - 0 <= 600 -> cy = -5 - 0)
    /\ (600 <= -5 - 0 -> cy = 600).
Proof.
  apply (processPointer_hover Sample.canvasRect
           (Pointer.handlePointerMoveGlobal (Pointer.mkEvent 1000 (-5) true 1%Z)
              (Pointer.initialSession 2 900 600 Sample.halves))
           (Pointer.mkEvent 1000 (-5) true 1%Z)).
  - reflexivity.
  - reflexivity.
  - simpl. lra.
  - simpl. lra.
Defined.

(** X13.  The frame callback consumes what it processes: run a second
    time with no new event in between, for whatever rectangle, it changes
    nothing. *)
Theorem processPointer_idempotent (rect1 rect2 : Pointer.DOMRect)
  (s : Pointer.Session) :
  Pointer.processPointer rect2 (Pointer.processPointer rect1 s)
  = Pointer.processPointer rect1 s.
Proof.
  unfold Pointer.processPointer.
  destruct (Pointer.lastEvent s); reflexivity.
Qed.

(** X14.  A pointerup or pointercancel of the primary pointer ends the
    drag and discards the pointer position that waits for its frame: the
    frame that follows leaves the pointer node where it was and does not
    touch the simulation's alpha.  The target alpha is set to 0. *)
Theorem endDrag_discards_pending_event (rect : Pointer.DOMRect)
  (e : Pointer.PointerEvent) (s : Pointer.Session) :
  Pointer.isPrimary e = true ->
  let s1 := Pointer.endDragFromEvent e s in
  let s2 := Pointer.processPointer rect s1 in
  Pointer.isDragging s1 = false
  /\ Pointer.activePointerId s1 = None
  /\ Pointer.alphaTarget (Pointer.simulation s1) = 0
  /\ Pointer.mouseNode s2 = Pointer.mouseNode s
  /\ Pointer.particles s2 = Pointer.particles s
  /\ Pointer.alpha (Pointer.simulation s2) = Pointer.alpha (Pointer.simulation s).
Proof.
  intros Hp. unfold Pointer.endDragFromEvent. rewrite Hp. cbn.
  repeat split; reflexivity.
Qed.

Lemma endDrag_discards_pending_event_witness :
  let s1 :=
    Pointer.endDragFromEvent Sample.move
      (Pointer.handlePointerMoveGlobal Sample.move
         (Pointer.onPointerDown Sample.down
            (Pointer.initialSession 2 900 600 Sample.halves))) in
  let s2 := Pointer.processPointer Sample.canvasRect s1 in
  Pointer.isDragging s1 = false
  /\ Pointer.activePointerId s1 = None
  /\ Pointer.alphaTarget (Pointer.simulation s1) = 0
  /\ Pointer.mouseNode s2 = Store.mouseNode 900 600
  /\ Pointer.particles s2
     = fst (Store.generateNodes 2 900 600 Sample.halves 0%nat)
  /\ Pointer.alpha (Pointer.simulation s2) = 1.
Proof.
  apply (endDrag_discards_pending_event Sample.canvasRect Sample.move
           (Pointer.handlePointerMoveGlobal Sample.move
              (Pointer.onPointerDown Sample.down
                 (Pointer.initialSession 2 900 600 Sample.halves)))).
  reflexivity.
Defined.

(** X15.  A pointerleave of the window during a drag changes nothing.
    Outside a drag it clears both pins of the pointer node and nothing
    else: the particles, every other field of the pointer node, the
    pending event and frame, the drag bookkeeping (no drag, the recorded
    active pointer), the simulation and the capture are as before.
    After it the tick handler treats the pointer node like any particle:
    it is clamped and reflected at the walls. *)
Theorem pointerleave_unpins_outside_drag (width height : R)
  (s : Pointer.Session) :
  (Pointer.isDragging s = true -> Pointer.handlePointerLeaveGlobal s = s)
  /\ (Pointer.isDragging s = false ->
      Pointer.handlePointerLeaveGlobal s
      = Pointer.mkSession (Pointer.particles s)
          (Node.mk (Node.id (Pointer.mouseNode s))
             (Node.x (Pointer.mouseNode s)) (Node.y (Pointer.mouseNode s))
             (Node.vx (Pointer.mouseNode s)) (Node.vy (Pointer.mouseNode s))
             (Node.radius (Pointer.mouseNode s))
             (Node.color (Pointer.mouseNode s)) None None)
          (Pointer.rafId s) (Pointer.lastEvent s) false
          (Pointer.activePointerId s) (Pointer.simulation s)
          (Pointer.nextHandle s) (Pointer.captured s)
      /\ Integrator.tick_node width height
           (Pointer.mouseNode (Pointer.handlePointerLeaveGlobal s))
         = Integrator.reflectY height
             (Integrator.reflectX width
                (Node.set_pins (Pointer.mouseNode s) None None))).
Proof.
  split; intros Hd; unfold Pointer.handlePointerLeaveGlobal; rewrite Hd;
    [ reflexivity | ].
  split; [ reflexivity | ].
  cbn. apply tick_node_free. unfold Integrator.pinned_pointer. cbn.
  now destruct (Z.eqb (Node.id (Pointer.mouseNode s)) MOUSE_ID).
Qed.

(** ** The handlers as a state machine *)

Section Epoch.

Variables width height : R.

Lemma tick_keeps_particle (n : Node.t) :
  (0 <= Node.id n)%Z /\ Node.fx n = None /\ Node.fy n = None ->
  (0 <= Node.id (Integrator.tick_node width height n))%Z
  /\ Node.fx (Integrator.tick_node width height n) = None
  /\ Node.fy (Integrator.tick_node width height n) = None.
Proof.
  intros (Hid & Hfx & Hfy).
  destruct (tick_node_frame width height n) as (-> & _ & _ & -> & ->).
  auto.
Qed.

(** The tick listener gives the resting pointer node no velocity and
    keeps it on its pin. *)
Lemma tick_keeps_pointer (m : Node.t) :
  Node.id m = MOUSE_ID ->
  Node.vx m = 0 /\ Node.vy m = 0 ->
  (Node.fx m = None /\ Node.fy m = None)
  \/ (Node.fx m = Some (Node.x m) /\ Node.fy m = Some (Node.y m)) ->
  let m' := Integrator.tick_node width height m in
  (Node.vx m' = 0 /\ Node.vy m' = 0)
  /\ ((Node.fx m' = None /\ Node.fy m' = None)
      \/ (Node.fx m' = Some (Node.x m') /\ Node.fy m' = Some (Node.y m'))).
Proof.
  intros Hid (Hvx & Hvy) Hpins. cbv zeta.
  destruct (tick_node_frame width height m) as (_ & _ & _ & Hfx & Hfy).
  destruct Hpins as [(Hx & Hy) | (Hx & Hy)].
  - rewrite Hfx, Hfy. split; [ | left; auto ].
    assert (Hp : Integrator.pinned_pointer m = false).
    { unfold Integrator.pinned_pointer. rewrite Hx.
      now destruct (Z.eqb (Node.id m) MOUSE_ID). }
    destruct (free_node_step width height m Hp) as (_ & HX & HY).
    rewrite Hvx in HX. rewrite Hvy in HY. rewrite Rabs_R0, Ropp_0 in HX, HY.
    destruct HX as [HX | [HX | HX]], HY as [HY | [HY | HY]]; split; tauto.
  - rewrite (tick_node_pinned width height m _ _ Hid Hx Hy). cbn.
    split; [ auto | right; auto ].
Qed.

(** Every call keeps the state consistent. *)
Lemma step_consistent (ev : Machine.Event) (s : Pointer.Session) :
  Machine.Consistent s -> Machine.Consistent (Machine.step width height ev s).
Proof.
  intros Hs. pose proof Hs as [Hid Hrest Hpins Hparts Hdrag Hev].
  destruct ev as [e | e | e | e | | rect | ]; cbn [Machine.step].
  - (* PointerMove *)
    destruct s as [ps m [h | ] le dr ap sim nh cap]; cbn in *;
      constructor; cbn; auto; intros _; discriminate.
  - (* PointerDown *)
    unfold Pointer.onPointerDown.
    destruct (Pointer.isPrimary e); cbn; [ | exact Hs ].
    destruct s as [ps m [h | ] le dr ap sim nh cap]; cbn in *;
      constructor; cbn; auto;
      try (split; [ discriminate | reflexivity ]);
      intros _; discriminate.
  - (* PointerUp *)
    unfold Pointer.onPointerUp, Pointer.endDragFromEvent.
    destruct (Pointer.isPrimary e); cbn; [ | exact Hs ].
    constructor; cbn; auto;
      try (split; [ discriminate | intros H; now contradiction H ]);
      try (intros H; now contradiction H).
  - (* PointerCancel *)
    unfold Pointer.onPointerCancel, Pointer.endDragFromEvent.
    destruct (Pointer.isPrimary e); cbn; [ | exact Hs ].
    constructor; cbn; auto;
      try (split; [ discriminate | intros H; now contradiction H ]);
      try (intros H; now contradiction H).
  - (* PointerLeave *)
    unfold Pointer.handlePointerLeaveGlobal.
    destruct (Pointer.isDragging s) eqn:Hd; [ exact Hs | ].
    constructor; cbn; auto; now rewrite ?Hd.
  - (* Frame *)
    destruct (Pointer.rafId s) as [h | ] eqn:Hraf; [ | exact Hs ].
    unfold Pointer.processPointer.
    destruct (Pointer.lastEvent s) as [e | ] eqn:Hle.
    + constructor; cbn; auto;
        try (destruct (Pointer.isDragging s); cbn; auto; fail);
        try (intros H; now contradiction H).
    + constructor; cbn; auto; try (intros H; now contradiction H).
  - (* Tick *)
    destruct (tick_keeps_pointer (Pointer.mouseNode s) Hid Hrest Hpins)
      as (Hrest' & Hpins').
    constructor; cbn; auto.
    + destruct (tick_node_frame width height (Pointer.mouseNode s))
        as (-> & _). exact Hid.
    + unfold Integrator.ticked. apply Forall_map.
      eapply Forall_impl; [ | exact Hparts ].
      intros n Hn. now apply tick_keeps_particle.
Qed.

Lemma step_ids (ev : Machine.Event) (s : Pointer.Session) :
  map Node.id (Pointer.nodes (Machine.step width height ev s))
  = map Node.id (Pointer.nodes s).
Proof.
  destruct ev as [e | e | e | e | | rect | ]; cbn [Machine.step].
  - destruct s as [ps m [h | ] le dr ap sim nh cap]; reflexivity.
  - unfold Pointer.onPointerDown.
    destruct (Pointer.isPrimary e); [ | reflexivity ].
    destruct s as [ps m [h | ] le dr ap sim nh cap]; reflexivity.
  - unfold Pointer.onPointerUp, Pointer.endDragFromEvent.
    destruct (Pointer.isPrimary e); reflexivity.
  - unfold Pointer.onPointerCancel, Pointer.endDragFromEvent.
    destruct (Pointer.isPrimary e); reflexivity.
  - unfold Pointer.handlePointerLeaveGlobal.
    destruct (Pointer.isDragging s); [ reflexivity | ].
    unfold Pointer.nodes. cbn. now rewrite !map_app.
  - destruct (Pointer.rafId s); [ | reflexivity ].
    unfold Pointer.processPointer.
    destruct (Pointer.lastEvent s); [ | reflexivity ].
    unfold Pointer.nodes. cbn. rewrite !map_app. f_equal. cbn.
    destruct (Pointer.isDragging s); reflexivity.
  - rewrite session_ticked_nodes. unfold Integrator.ticked.
    rewrite map_map. apply map_ext. intros n.
    now destruct (tick_node_frame width height n) as (-> & _).
Qed.

Lemma run_consistent (evs : list Machine.Event) :
  forall s : Pointer.Session,
    Machine.Consistent s ->
    Machine.Consistent (Machine.run width height evs s)
    /\ map Node.id (Pointer.nodes (Machine.run width height evs s))
       = map Node.id (Pointer.nodes s).
Proof.
  unfold Machine.run.
  induction evs as [ | ev evs IH ]; intros s Hs; [ now split | ].
  cbn [fold_left].
  destruct (IH _ (step_consistent ev s Hs)) as (Hc & Hi).
  split; [ exact Hc | ]. rewrite Hi. apply step_ids.
Qed.

Lemma initialSession_consistent (count : nat) (rnd : nat -> R) :
  Machine.Consistent (Pointer.initialSession count width height rnd).
Proof.
  assert (Hparts :
            Forall (fun n => (0 <= Node.id n)%Z
                             /\ Node.fx n = None /\ Node.fy n = None)
                   (fst (Store.generateNodes count width height rnd 0%nat))).
  { apply Forall_forall. intros n Hin.
    apply In_nth_error in Hin. destruct Hin as (j & Hj).
    unfold Store.generateNodes in Hj. apply generateFrom_nth in Hj.
    subst n. rewrite generateNode_eq. cbn. repeat split. lia. }
  constructor; cbn; auto;
    try (split; [ discriminate | intros H; now contradiction H ]);
    try (intros H; now contradiction H).
Qed.

End Epoch.

(** X16.  Whatever the browser and the simulation call during a
    viewport epoch (pointer moves, downs, ups, cancels, leaves, frames,
    ticks, in any order and number), the state stays consistent: the
    pointer node keeps identity -1 and has velocity (0,0); its pins are
    both absent or both present, and when present they equal its
    position; no particle is ever pinned and particles keep non-negative
    identities; a drag is on exactly when an active pointer is recorded;
    and a recorded pointer position always has a frame requested for it.
    The identities of the array stay 0, ..., count - 1, then -1. *)
Theorem epoch_invariant (width height : R) (count : nat) (rnd : nat -> R)
  (evs : list Machine.Event) :
  Machine.Consistent
    (Machine.run width height evs
       (Pointer.initialSession count width height rnd))
  /\ map Node.id
       (Pointer.nodes
          (Machine.run width height evs
             (Pointer.initialSession count width height rnd)))
     = map Z.of_nat (seq 0 count) ++ [MOUSE_ID].
Proof.
  destruct (run_consistent width height evs _
              (initialSession_consistent width height count rnd))
    as (Hc & Hi).
  split; [ exact Hc | ]. rewrite Hi.
  unfold Pointer.nodes, Pointer.initialSession, Store.generateNodes. cbn.
  rewrite map_app, generateFrom_ids. reflexivity.
Qed.

Section FrozenDrag.

Variables width height : R.
Variables x0 y0 r0 : R.
Hypothesis inside_x : r0 < x0 < width - r0.
Hypothesis inside_y : r0 < y0 < height - r0.

Lemma step_dragged_at (ev : Machine.Event) (s : Pointer.Session) :
  Machine.keeps_drag ev -> Machine.dragged_at x0 y0 r0 s ->
  Machine.dragged_at x0 y0 r0 (Machine.step width height ev s).
Proof.
  intros Hev (Hc & Hd & Hx & Hy & Hr).
  split; [ now apply step_consistent | ].
  destruct ev as [e | e | e | e | | rect | ]; cbn [Machine.step Machine.keeps_drag] in *.
  - destruct s as [ps m [h | ] le dr ap sim nh cap]; cbn in *; auto.
  - unfold Pointer.onPointerDown.
    destruct (Pointer.isPrimary e); cbn; auto.
    destruct s as [ps m [h | ] le dr ap sim nh cap]; cbn in *; auto.
  - unfold Pointer.onPointerUp, Pointer.endDragFromEvent.
    rewrite Hev. cbn. auto.
  - unfold Pointer.onPointerCancel, Pointer.endDragFromEvent.
    rewrite Hev. cbn. auto.
  - unfold Pointer.handlePointerLeaveGlobal. rewrite Hd. auto.
  - destruct (Pointer.rafId s); [ | auto ].
    unfold Pointer.processPointer.
    destruct (Pointer.lastEvent s); cbn; [ | auto ].
    rewrite Hd. cbn. rewrite !lerp_shipped. auto.
  - cbn. split; [ exact Hd | ].
    destruct Hc as [Hid _ Hpins _ _ _].
    destruct Hpins as [(Hfx & Hfy) | (Hfx & Hfy)].
    + rewrite tick_node_interior; auto; try lra.
      unfold Integrator.pinned_pointer. rewrite Hfx.
      now destruct (Z.eqb (Node.id (Pointer.mouseNode s)) MOUSE_ID).
    + rewrite (tick_node_pinned width height _ _ _ Hid Hfx Hfy). cbn. auto.
Qed.

Lemma run_dragged_at (evs : list Machine.Event) :
  forall s : Pointer.Session,
    Forall Machine.keeps_drag evs -> Machine.dragged_at x0 y0 r0 s ->
    Machine.dragged_at x0 y0 r0 (Machine.run width height evs s).
Proof.
  unfold Machine.run.
  induction evs as [ | ev evs IH ]; intros s Hall Hs; [ exact Hs | ].
  inversion Hall as [ | ev' evs' Hev Hevs ]; subst.
  cbn [fold_left]. apply IH; [ exact Hevs | ].
  now apply step_dragged_at.
Qed.

End FrozenDrag.

(** X17.  With the shipped smoothing factor 0 a drag freezes the pointer
    node: from a consistent state in which a drag is on and the pointer
    node lies strictly between the walls, no sequence of calls that does
    not end the drag (anything but a pointerup or pointercancel of the
    primary pointer) moves the pointer node, wherever the pointer goes;
    the drag stays on. *)
Theorem drag_freezes_pointer (width height : R) (evs : list Machine.Event)
  (s : Pointer.Session) :
  Machine.Consistent s ->
  Pointer.isDragging s = true ->
  Node.radius (Pointer.mouseNode s) < Node.x (Pointer.mouseNode s)
    < width - Node.radius (Pointer.mouseNode s) ->
  Node.radius (Pointer.mouseNode s) < Node.y (Pointer.mouseNode s)
    < height - Node.radius (Pointer.mouseNode s) ->
  Forall Machine.keeps_drag evs ->
  Pointer.isDragging (Machine.run width height evs s) = true
  /\ Node.x (Pointer.mouseNode (Machine.run width height evs s))
     = Node.x (Pointer.mouseNode s)
  /\ Node.y (Pointer.mouseNode (Machine.run width height evs s))
     = Node.y (Pointer.mouseNode s).
Proof.
  intros Hc Hd Hx Hy Hall.
  assert (Hs : Machine.dragged_at (Node.x (Pointer.mouseNode s))
                 (Node.y (Pointer.mouseNode s))
                 (Node.radius (Pointer.mouseNode s)) s)
    by (unfold Machine.dragged_at; auto).
  destruct (run_dragged_at width height _ _ _ Hx Hy evs s Hall Hs)
    as (_ & Hd' & Hx' & Hy' & _).
  auto.
Qed.

Lemma drag_freezes_pointer_witness :
  let s := Pointer.onPointerDown Sample.down
             (Pointer.initialSession 2 900 600 Sample.halves) in
  let evs := [Machine.PointerMove Sample.move; Machine.Frame Sample.canvasRect;
              Machine.Tick; Machine.PointerLeave;
              Machine.PointerMove Sample.down;
              Machine.Frame Sample.canvasRect; Machine.Tick] in
  Pointer.isDragging (Machine.run 900 600 evs s) = true
  /\ Node.x (Pointer.mouseNode (Machine.run 900 600 evs s)) = 900 / 2
  /\ Node.y (Pointer.mouseNode (Machine.run 900 600 evs s)) = 600 / 2.
Proof.
  cbv zeta.
  apply (drag_freezes_pointer 900 600
           [Machine.PointerMove Sample.move; Machine.Frame Sample.canvasRect;
            Machine.Tick; Machine.PointerLeave;
            Machine.PointerMove Sample.down;
            Machine.Frame Sample.canvasRect; Machine.Tick]
           (Pointer.onPointerDown Sample.down
              (Pointer.initialSession 2 900 600 Sample.halves))).
  - apply (step_consistent 900 600 (Machine.PointerDown Sample.down)).
    apply initialSession_consistent.
  - reflexivity.
  - cbn. rewrite mouseRadius_one. lra.
  - cbn. rewrite mouseRadius_one. lra.
  - repeat constructor.
Defined.

(** ** More on edge discovery *)

Lemma hypot_nonneg (dx dy : R) : 0 <= Renderer.hypot dx dy.
Proof. apply sqrt_pos. Qed.

Lemma hypot_swap (xa ya xb yb : R) :
  Renderer.hypot (xb - xa) (yb - ya) = Renderer.hypot (xa - xb) (ya - yb).
Proof. unfold Renderer.hypot. f_equal. ring. Qed.

Lemma edgesFrom_sound (a : Node.t) (rest : list Node.t) (e : Renderer.Edge) :
  In e (Renderer.edgesFrom a rest) ->
  exists k : nat,
    nth_error rest k = Some (Renderer.b e)
    /\ Renderer.a e = a
    /\ Renderer.dist e
       = Renderer.hypot (Node.x a - Node.x (Renderer.b e))
                        (Node.y a - Node.y (Renderer.b e))
    /\ Renderer.dist e <= LINK_DISTANCE.
Proof.
  induction rest as [ | c rest IH ]; intros Hin; [ contradiction | ].
  simpl in Hin.
  destruct (Rle_dec _ _) as [Hle | _].
  - destruct Hin as [<- | Hin].
    + exists 0%nat. simpl. auto.
    + destruct (IH Hin) as (k & Hk). exists (S k). exact Hk.
  - destruct (IH Hin) as (k & Hk). exists (S k). exact Hk.
Qed.

Lemma computeEdges_sound (nodes : list Node.t) (e : Renderer.Edge) :
  In e (Renderer.computeEdges nodes) ->
  exists i j : nat,
    (i < j)%nat
    /\ nth_error nodes i = Some (Renderer.a e)
    /\ nth_error nodes j = Some (Renderer.b e)
    /\ Renderer.dist e
       = Renderer.hypot (Node.x (Renderer.a e) - Node.x (Renderer.b e))
                        (Node.y (Renderer.a e) - Node.y (Renderer.b e))
    /\ Renderer.dist e <= LINK_DISTANCE.
Proof.
  induction nodes as [ | c nodes IH ]; intros Hin; [ contradiction | ].
  simpl in Hin. apply in_app_or in Hin. destruct Hin as [Hin | Hin].
  - destruct (edgesFrom_sound c nodes e Hin) as (k & Hk & Ha & Hd & Hl).
    exists 0%nat, (S k). rewrite Ha. simpl. repeat split; auto. lia.
  - destruct (IH Hin) as (i & j & Hij & Hi & Hj & Hd & Hl).
    exists (S i), (S j). simpl. repeat split; auto. lia.
Qed.

Lemma edgesFrom_length (a : Node.t) (rest : list Node.t) :
  (List.length (Renderer.edgesFrom a rest) <= List.length rest)%nat.
Proof.
  induction rest as [ | c rest IH ]; simpl; [ lia | ].
  destruct (Rle_dec _ _); simpl; lia.
Qed.

(** X18.  The edge list holds exactly the pairs the loops are meant to
    find: an edge is in the list if and only if its ends are the nodes
    at two positions i < j of the array, its distance is the Euclidean
    distance of the two and is at most the link distance.  No edge joins
    a position to itself, and no pair is listed in both orders. *)
Theorem computeEdges_characterised (nodes : list Node.t)
  (e : Renderer.Edge) :
  In e (Renderer.computeEdges nodes)
  <-> exists i j : nat,
        (i < j)%nat
        /\ nth_error nodes i = Some (Renderer.a e)
        /\ nth_error nodes j = Some (Renderer.b e)
        /\ Renderer.dist e
           = Renderer.hypot (Node.x (Renderer.a e) - Node.x (Renderer.b e))
                            (Node.y (Renderer.a e) - Node.y (Renderer.b e))
        /\ Renderer.dist e <= LINK_DISTANCE.
Proof.
  split; [ apply computeEdges_sound | ].
  intros (i & j & Hij & Hi & Hj & Hd & Hl).
  destruct e as [a b d]. simpl in *. subst d.
  now apply (computeEdges_complete nodes i j).
Qed.

(** X19.  An array of n nodes gives at most n (n - 1) / 2 edges. *)
Theorem computeEdges_count (nodes : list Node.t) :
  (2 * List.length (Renderer.computeEdges nodes)
   <= List.length nodes * (List.length nodes - 1))%nat.
Proof.
  induction nodes as [ | a rest IH ]; [ simpl; lia | ].
  simpl Renderer.computeEdges. rewrite length_app.
  pose proof (edgesFrom_length a rest) as Hl.
  simpl List.length. nia.
Qed.

(** X20.  Edge discovery does not depend on the direction the array is
    read in: the reversed array gives the same edges with their ends
    exchanged, at the same distances. *)
Theorem computeEdges_reversed (nodes : list Node.t) (a b : Node.t) (d : R) :
  In (Renderer.mkEdge a b d) (Renderer.computeEdges nodes)
  <-> In (Renderer.mkEdge b a d) (Renderer.computeEdges (rev nodes)).
Proof.
  assert (Hdir : forall (l : list Node.t) (u v : Node.t) (w : R),
             In (Renderer.mkEdge u v w) (Renderer.computeEdges l) ->
             In (Renderer.mkEdge v u w) (Renderer.computeEdges (rev l))).
  { intros l u v w Hin.
    destruct (computeEdges_sound l _ Hin) as (i & j & Hij & Hi & Hj & Hd & Hl).
    simpl in *.
    assert (Hjlen : (j < List.length l)%nat)
      by (apply nth_error_Some; rewrite Hj; discriminate).
    rewrite Hd in *. rewrite <- hypot_swap.
    apply (computeEdges_complete (rev l)
             (List.length l - S j) (List.length l - S i) v u).
    - lia.
    - rewrite nth_error_rev.
      replace (List.length l - S (List.length l - S j))%nat with j by lia.
      destruct (Nat.ltb_spec (List.length l - S j) (List.length l));
        [ exact Hj | lia ].
    - rewrite nth_error_rev.
      replace (List.length l - S (List.length l - S i))%nat with i by lia.
      destruct (Nat.ltb_spec (List.length l - S i) (List.length l));
        [ exact Hi | lia ].
    - rewrite hypot_swap. exact Hl. }
  split; [ apply Hdir | ].
  intros Hin. apply Hdir in Hin. now rewrite rev_involutive in Hin.
Qed.

(** ** Painting *)

Lemma proximity_le_1 (falloff : Falloff) (mouseNode n : Node.t) (radius : R) :
  0 < radius ->
  Renderer.proximityFactorToMouseWithRadius falloff mouseNode n radius
    (radius * radius) <= 1.
Proof.
  intros Hr.
  destruct (Rlt_le_dec (Renderer.distance mouseNode n) radius) as [Hin | Hout].
  - destruct (proximity_inside mouseNode radius Hr falloff n Hin) as (Ht & ->).
    destruct falloff; nra.
  - rewrite (proximity_outside mouseNode radius falloff n); [ lra | ].
    pose proof (distance_squared mouseNode n). nra.
Qed.

(** X21.  For a positive effect radius the proximity factor is a number
    between 0 and 1, with either falloff. *)
Theorem proximity_in_unit_interval (falloff : Falloff) (mouseNode n : Node.t)
  (radius : R) :
  0 < radius ->
  0 <= Renderer.proximityFactorToMouseWithRadius falloff mouseNode n radius
         (radius * radius) <= 1.
Proof.
  intros Hr. split;
    [ apply proximity_nonneg | now apply proximity_le_1 ].
Qed.

Lemma proximity_in_unit_interval_witness :
  0 <= Renderer.proximityFactorToMouseWithRadius quadratic
         (Sample.pointer 0 0 0 0 None None)
         (Sample.particle 1 0 0 0 None None) 2 (2 * 2) <= 1.
Proof.
  apply (proximity_in_unit_interval quadratic
           (Sample.pointer 0 0 0 0 None None)
           (Sample.particle 1 0 0 0 None None) 2).
  lra.
Defined.

Lemma baseOpacity_range (e : Renderer.Edge) :
  0 <= Renderer.dist e -> 0 <= Renderer.baseOpacity e <= 1.
Proof.
  intros Hd. unfold Renderer.baseOpacity, LINK_DISTANCE.
  split; [ apply Rmax_l | ]. apply Rmax_lub; lra.
Qed.

Lemma edge_radius_pos : 0 < MOUSE_EFFECT_RADIUS_EDGES.
Proof. unfold MOUSE_EFFECT_RADIUS_EDGES. lra. Qed.

Lemma node_radius_pos : 0 < MOUSE_EFFECT_RADIUS_NODES.
Proof. unfold MOUSE_EFFECT_RADIUS_NODES. lra. Qed.

(** What [drawEdge] paints, if anything. *)
Lemma drawEdge_cases (falloff : Falloff) (mouseNode : Node.t)
  (e : Renderer.Edge) :
  let pa := Renderer.proximityFactorToMouseWithRadius falloff mouseNode
              (Renderer.a e) MOUSE_EFFECT_RADIUS_EDGES
              (MOUSE_EFFECT_RADIUS_EDGES * MOUSE_EFFECT_RADIUS_EDGES) in
  let pb := Renderer.proximityFactorToMouseWithRadius falloff mouseNode
              (Renderer.b e) MOUSE_EFFECT_RADIUS_EDGES
              (MOUSE_EFFECT_RADIUS_EDGES * MOUSE_EFFECT_RADIUS_EDGES) in
  let c := Renderer.baseOpacity e * ((pa + pb) / 2) in
  (Renderer.drawEdge falloff mouseNode e = []
   /\ ((pa = 0 /\ pb = 0) \/ c <= 5 / 1000))
  \/ (Renderer.drawEdge falloff mouseNode e
      = [Renderer.Stroke c (Node.x (Renderer.a e)) (Node.y (Renderer.a e))
           (Node.x (Renderer.b e)) (Node.y (Renderer.b e))]
      /\ 5 / 1000 < c).
Proof.
  cbv zeta. unfold Renderer.drawEdge.
  destruct (Req_dec_T _ 0) as [Ha | Ha]; [ destruct (Req_dec_T _ 0) as [Hb | Hb] | ];
    try (left; split; [ reflexivity | left; split; assumption ]);
    (destruct (Rle_dec _ _) as [Hc | Hc];
     [ left; split; [ reflexivity | right; exact Hc ]
     | right; split; [ reflexivity | lra ] ]).
Qed.

(** X22.  Every alpha value a frame paints is a valid opacity: an edge
    is stroked with an alpha above 0.005 and at most 1, a node is filled
    with an alpha above 0.01 and at most 1. *)
Theorem painted_alphas_valid (nodes : list Node.t) (mouseNode : Node.t) :
  Forall (fun p : Renderer.Paint =>
            match p with
            | Renderer.Stroke alpha _ _ _ _ => 5 / 1000 < alpha <= 1
            | Renderer.Fill _ alpha _ _ _ => 1 / 100 < alpha <= 1
            end)
         (Renderer.drawFrameWithSeparateRadii nodes mouseNode).
Proof.
  apply Forall_forall. intros p Hin.
  unfold Renderer.drawFrameWithSeparateRadii in Hin.
  apply in_app_or in Hin. destruct Hin as [Hin | Hin];
    apply in_flat_map in Hin; destruct Hin as (u & Hu & Hp).
  - destruct (computeEdges_sound nodes u Hu) as (_ & _ & _ & _ & _ & Hd & _).
    assert (H0 : 0 <= Renderer.dist u) by (rewrite Hd; apply hypot_nonneg).
    pose proof (baseOpacity_range u H0) as Hb.
    pose proof (proximity_le_1 MOUSE_FALLOFF mouseNode
                  (Renderer.a u) _ edge_radius_pos) as Ha1.
    pose proof (proximity_nonneg mouseNode MOUSE_EFFECT_RADIUS_EDGES
                  MOUSE_FALLOFF (Renderer.a u)) as Ha0.
    pose proof (proximity_le_1 MOUSE_FALLOFF mouseNode
                  (Renderer.b u) _ edge_radius_pos) as Hb1.
    pose proof (proximity_nonneg mouseNode MOUSE_EFFECT_RADIUS_EDGES
                  MOUSE_FALLOFF (Renderer.b u)) as Hb0.
    destruct (drawEdge_cases MOUSE_FALLOFF mouseNode u)
      as [(He & _) | (He & Hc)]; rewrite He in Hp; [ contradiction | ].
    destruct Hp as [<- | []]. split; [ exact Hc | nra ].
  - unfold Renderer.drawNode in Hp.
    pose proof (proximity_le_1 MOUSE_FALLOFF mouseNode u _ node_radius_pos)
      as H1.
    destruct (Req_dec_T _ 0) as [_ | _]; [ contradiction | ].
    destruct (Rle_dec _ _) as [_ | Hgt]; [ contradiction | ].
    destruct Hp as [<- | []]. split; [ lra | exact H1 ].
Qed.


Lemma distance_self (m : Node.t) : Renderer.distance m m = 0.
Proof.
  unfold Renderer.distance, Renderer.squaredDistance.
  replace ((Node.x m - Node.x m) * (Node.x m - Node.x m)
           + (Node.y m - Node.y m) * (Node.y m - Node.y m)) with 0 by ring.
  apply sqrt_0.
Qed.

(** X24.  The pointer node itself is always painted, with either
    falloff: at full opacity and with its radius enlarged by 35%. *)
Theorem pointer_node_painted_opaque (falloff : Falloff) (mouseNode : Node.t) :
  Renderer.drawNode falloff mouseNode mouseNode
  = [Renderer.Fill (Color.hexToRgb (Node.color mouseNode)) 1
       (Node.x mouseNode) (Node.y mouseNode)
       (Node.radius mouseNode * (1 + 35 / 100 * 1))].
Proof.
  unfold Renderer.drawNode.
  destruct (proximity_inside mouseNode MOUSE_EFFECT_RADIUS_NODES
              node_radius_pos falloff mouseNode) as (_ & Hp).
  { rewrite distance_self. apply node_radius_pos. }
  rewrite distance_self in Hp.
  assert (H1 : Renderer.proximityFactorToMouseWithRadius falloff mouseNode
                 mouseNode MOUSE_EFFECT_RADIUS_NODES
                 (MOUSE_EFFECT_RADIUS_NODES * MOUSE_EFFECT_RADIUS_NODES) = 1).
  { rewrite Hp. unfold Rdiv. destruct falloff; ring. }
  rewrite H1.
  destruct (Req_dec_T 1 0) as [H0 | _]; [ lra | ].
  destruct (Rle_dec 1 (1 / 100)) as [Hle | _]; [ lra | ].
  reflexivity.
Qed.

(** X25.  An edge is not painted when it is at least 99.5 pixels long,
    and not when both its ends are 375 pixels or more from the pointer
    node, whatever its length. *)
Theorem drawEdge_skips (falloff : Falloff) (mouseNode : Node.t)
  (e : Renderer.Edge) :
  (995 / 10 <= Renderer.dist e ->
   Renderer.drawEdge falloff mouseNode e = [])
  /\ (375 <= Renderer.distance mouseNode (Renderer.a e) ->
      375 <= Renderer.distance mouseNode (Renderer.b e) ->
      Renderer.drawEdge falloff mouseNode e = []).
Proof.
  pose proof (proximity_le_1 falloff mouseNode (Renderer.a e) _ edge_radius_pos)
    as Ha1.
  pose proof (proximity_le_1 falloff mouseNode (Renderer.b e) _ edge_radius_pos)
    as Hb1.
  pose proof (proximity_nonneg mouseNode MOUSE_EFFECT_RADIUS_EDGES falloff
                (Renderer.a e)) as Ha0.
  pose proof (proximity_nonneg mouseNode MOUSE_EFFECT_RADIUS_EDGES falloff
                (Renderer.b e)) as Hb0.
  split.
  - intros Hlong.
    destruct (drawEdge_cases falloff mouseNode e) as [(He & _) | (_ & Hc)];
      [ exact He | exfalso ].
    assert (Hb : 0 <= Renderer.baseOpacity e <= 5 / 1000).
    { unfold Renderer.baseOpacity, LINK_DISTANCE.
      split; [ apply Rmax_l | apply Rmax_lub; lra ]. }
    nra.
  - intros Hfa Hfb.
    destruct (drawEdge_cases falloff mouseNode e) as [(He & _) | (_ & Hc)];
      [ exact He | exfalso ].
    rewrite (proximity_outside mouseNode MOUSE_EFFECT_RADIUS_EDGES falloff
               (Renderer.a e)) in Hc.
    + rewrite (proximity_outside mouseNode MOUSE_EFFECT_RADIUS_EDGES falloff
                 (Renderer.b e)) in Hc.
      * lra.
      * pose proof (distance_squared mouseNode (Renderer.b e)).
        unfold MOUSE_EFFECT_RADIUS_EDGES. nra.
    + pose proof (distance_squared mouseNode (Renderer.a e)).
      unfold MOUSE_EFFECT_RADIUS_EDGES. nra.
Qed.

(** ** Density and interpolation *)

(** X26.  The node count is 75, 150 or 300, and, when the small
    breakpoint is not above the large one, a wider viewport never gets
    fewer nodes. *)
Theorem getNodeCountForWidth_monotone (sm lg w1 w2 : R) :
  sm <= lg ->
  w1 <= w2 ->
  (Store.getNodeCountForWidth sm lg w1
   <= Store.getNodeCountForWidth sm lg w2)%nat
  /\ (Store.getNodeCountForWidth sm lg w1 = 75%nat
      \/ Store.getNodeCountForWidth sm lg w1 = 150%nat
      \/ Store.getNodeCountForWidth sm lg w1 = 300%nat).
Proof.
  intros Hb Hw. unfold Store.getNodeCountForWidth.
  destruct (Rlt_dec w1 sm), (Rlt_dec w1 lg), (Rlt_dec w2 sm), (Rlt_dec w2 lg);
    try (exfalso; lra); split; auto; lia.
Qed.

Lemma getNodeCountForWidth_monotone_witness :
  (Store.getNodeCountForWidth 600 1200 300
   <= Store.getNodeCountForWidth 600 1200 900)%nat
  /\ (Store.getNodeCountForWidth 600 1200 300 = 75%nat
      \/ Store.getNodeCountForWidth 600 1200 300 = 150%nat
      \/ Store.getNodeCountForWidth 600 1200 300 = 300%nat).
Proof.
  apply (getNodeCountForWidth_monotone 600 1200 300 900); lra.
Defined.
